(** * Charger uptime calculator: the interval engine of [charger_uptime.py]

    A shallow embedding of the four core functions of the program
    ([get_station_reporting_period], [merge_intervals],
    [calculate_station_uptime] and the evaluation loop of [main]) together
    with the properties its specification states about them.

    Python integers are unbounded, so every number is a [Z].  A report is
    the 4-tuple [(charger_id, start_time, end_time, is_up)], an interval the
    pair [(start, end)].  [set(charger_ids)] is a [gset Z].  Python
    exceptions are results of an error monad, so that "does not fail" is a
    statement about the code and not an artefact of a total model. *)

From Stdlib Require Import ZArith Lia Ascii.
From stdpp Require Import base list sorting gmap sets strings.

Open Scope Z_scope.

(** ** Python values and exceptions *)

Definition interval : Type := Z * Z.
Definition report : Type := Z * Z * Z * bool.

Inductive exn : Type :=
| IndexError
| ZeroDivisionError.

Inductive result (A : Type) : Type :=
| Ok (a : A)
| Raise (e : exn).
Arguments Ok {A} a.
Arguments Raise {A} e.

Global Instance result_ret : MRet result := fun _ a => Ok a.
Global Instance result_bind : MBind result := fun _ _ f m =>
  match m with
  | Ok a => f a
  | Raise e => Raise e
  end.

(** A [for] loop whose body may raise. *)
Fixpoint for_each {A B : Type} (body : B -> A -> result B) (acc : B)
    (l : list A) : result B :=
  match l with
  | [] => Ok acc
  | x :: l' => acc' ← body acc x; for_each body acc' l'
  end.

(** [xs[-1]]: raises [IndexError] on the empty list. *)
Definition py_last {A : Type} (xs : list A) : result A :=
  match last xs with
  | Some x => Ok x
  | None => Raise IndexError
  end.

(** [xs[-1] = v], for a list known to be non-empty. *)
Definition set_last {A : Type} (xs : list A) (v : A) : list A :=
  <[pred (length xs) := v]> xs.

(** [a // b]: floor division, raising on a zero divisor.  [Z.div] rounds
    toward minus infinity and gives the remainder the sign of the divisor,
    as Python does. *)
Definition py_floordiv (a b : Z) : result Z :=
  if bool_decide (b = 0) then Raise ZeroDivisionError else Ok (a `div` b).

(** Comparison of 2-tuples of integers, as [list.sort] uses it:
    lexicographic, first component first. *)
Definition tuple_le (a b : Z * Z) : Prop :=
  a.1 < b.1 \/ (a.1 = b.1 /\ a.2 <= b.2).

Global Instance tuple_le_dec : RelDecision tuple_le.
Proof. intros a b. unfold tuple_le. apply _. Defined.

(** [xs.sort()] on a list of 2-tuples. *)
Definition py_sort (xs : list (Z * Z)) : list (Z * Z) :=
  merge_sort tuple_le xs.

(** ** get_station_reporting_period *)

Definition period_step (station_chargers : gset Z)
    (acc : option Z * option Z) (r : report) : option Z * option Z :=
  let '(charger_id, start_time, end_time, _) := r in
  let '(min_start, max_end) := acc in
  if bool_decide (charger_id ∈ station_chargers) then
    (match min_start with
     | None => Some start_time
     | Some m => if bool_decide (start_time < m) then Some start_time else Some m
     end,
     match max_end with
     | None => Some end_time
     | Some m => if bool_decide (end_time > m) then Some end_time else Some m
     end)
  else acc.

Definition get_station_reporting_period (station_id : Z) (charger_ids : list Z)
    (reports : list report) : Z * Z :=
  let station_chargers : gset Z := list_to_set charger_ids in
  match foldl (period_step station_chargers) (None, None) reports with
  | (Some min_start, Some max_end) => (min_start, max_end)
  | _ => (0, 0)
  end.

(** ** merge_intervals *)

Definition merge_step (merged : list interval) (cur : interval)
    : result (list interval) :=
  let '(current_start, current_end) := cur in
  '(last_start, last_end) ← py_last merged;
  if bool_decide (current_start <= last_end) then
    Ok (set_last merged (last_start, last_end `max` current_end))
  else
    Ok (merged ++ [(current_start, current_end)]).

Definition merge_intervals (intervals : list interval) : result (list interval) :=
  match intervals with
  | [] => Ok []
  | _ =>
    match py_sort intervals with
    | [] => Raise IndexError
    | first :: rest => for_each merge_step [first] rest
    end
  end.

(** ** calculate_station_uptime *)

Definition collect_up (station_chargers : gset Z) (up_intervals : list interval)
    (r : report) : list interval :=
  let '(charger_id, start_time, end_time, is_up) := r in
  if bool_decide (charger_id ∈ station_chargers) && is_up then
    up_intervals ++ [(start_time, end_time)]
  else up_intervals.

Definition clip_add (period_start period_end : Z) (total_uptime : Z)
    (iv : interval) : Z :=
  let '(start, end_) := iv in
  let clipped_start := start `max` period_start in
  let clipped_end := end_ `min` period_end in
  if bool_decide (clipped_start < clipped_end) then
    total_uptime + (clipped_end - clipped_start)
  else total_uptime.

Definition calculate_station_uptime (station_id : Z) (charger_ids : list Z)
    (reports : list report) : result Z :=
  let '(period_start, period_end) :=
    get_station_reporting_period station_id charger_ids reports in
  if bool_decide (period_start = period_end) then Ok 0 else
  let total_period := period_end - period_start in
  let station_chargers : gset Z := list_to_set charger_ids in
  let up_intervals := foldl (collect_up station_chargers) [] reports in
  merged_up_intervals ← merge_intervals up_intervals;
  let total_uptime := foldl (clip_add period_start period_end) 0 merged_up_intervals in
  uptime_percentage ← py_floordiv (total_uptime * 100) total_period;
  Ok uptime_percentage.

(** ** main: validation, evaluation of every station, ordered output

    [stations] is the dictionary built by the parser, given as its
    [items()] in iteration order; its keys are pairwise distinct. *)

Inductive outcome : Type :=
| Exit_ERROR
| Printed (lines : list (Z * Z)).

Definition evaluate_station (reports : list report) (results : list (Z * Z))
    (item : Z * list Z) : result (list (Z * Z)) :=
  let '(station_id, charger_ids) := item in
  uptime ← calculate_station_uptime station_id charger_ids reports;
  Ok (results ++ [(station_id, uptime)]).

(** Lines 206-213 of [main]: the loop over the stations and the sort. *)
Definition fleet_results (stations : list (Z * list Z)) (reports : list report)
    : result (list (Z * Z)) :=
  results ← for_each (evaluate_station reports) [] stations;
  Ok (py_sort results).

Definition main (stations : list (Z * list Z)) (reports : list report)
    : result outcome :=
  let all_station_chargers : gset Z :=
    foldl (fun acc item => acc ∪ list_to_set item.2) ∅ stations in
  let report_chargers : gset Z :=
    list_to_set (map (fun r : report => r.1.1.1) reports) in
  if bool_decide (report_chargers ⊆ all_station_chargers) then
    results ← fleet_results stations reports;
    Ok (Printed results)
  else Ok Exit_ERROR.

(** ** Vocabulary of the specification *)

Definition report_charger (r : report) : Z := r.1.1.1.
Definition report_start (r : report) : Z := r.1.1.2.
Definition report_end (r : report) : Z := r.1.2.
Definition report_is_up (r : report) : bool := r.2.

(** The input invariant [start < end], on intervals and on reports. *)
Definition valid (iv : interval) : Prop := iv.1 < iv.2.
Definition report_valid (r : report) : Prop := report_start r < report_end r.

(** The points of the half-open interval [[start, end)], and of a union. *)
Definition inside (iv : interval) (x : Z) : Prop := iv.1 <= x < iv.2.
Definition covers (l : list interval) (x : Z) : Prop :=
  exists iv, iv ∈ l /\ inside iv x.

(** [a] ends strictly before [b] starts: neither overlapping nor touching. *)
Definition gap_before (a b : interval) : Prop := a.2 < b.1.
Definition start_le (a b : interval) : Prop := a.1 <= b.1.

(** The reports of a station, and the intervals of its "up" reports. *)
Definition station_reports (charger_ids : list Z) (reports : list report)
    : list report :=
  filter (fun r => report_charger r ∈ charger_ids) reports.

Definition up_reports (charger_ids : list Z) (reports : list report)
    : list interval :=
  map (fun r => (report_start r, report_end r))
    (filter (fun r => report_is_up r = true)
       (station_reports charger_ids reports)).

Definition duration (iv : interval) : Z := iv.2 - iv.1.

(** Length of the part of [iv] that lies in the window [[ws, we)]. *)
Definition clipped_duration (ws we : Z) (iv : interval) : Z :=
  0 `max` ((iv.2 `min` we) - (iv.1 `max` ws)).

Definition sum_Z (l : list Z) : Z := foldr Z.add 0 l.

(** The loop of [merge_intervals] over an already sorted list, written by
    recursion on the remaining intervals: [cur] is [merged[-1]]. *)
Fixpoint merge_from (cur : interval) (rest : list interval) : list interval :=
  match rest with
  | [] => [cur]
  | nxt :: rest' =>
    if bool_decide (nxt.1 <= cur.2) then
      merge_from (cur.1, cur.2 `max` nxt.2) rest'
    else cur :: merge_from nxt rest'
  end.

Definition merge_sorted (l : list interval) : list interval :=
  match l with
  | [] => []
  | first :: rest => merge_from first rest
  end.

(** The variant of [calculate_station_uptime] that adds up the merged
    intervals as they are, without clipping them to the window. *)
Definition calculate_station_uptime_unclipped (station_id : Z)
    (charger_ids : list Z) (reports : list report) : result Z :=
  let '(period_start, period_end) :=
    get_station_reporting_period station_id charger_ids reports in
  if bool_decide (period_start = period_end) then Ok 0 else
  let total_period := period_end - period_start in
  let station_chargers : gset Z := list_to_set charger_ids in
  let up_intervals := foldl (collect_up station_chargers) [] reports in
  merged_up_intervals ← merge_intervals up_intervals;
  let total_uptime := sum_Z (map duration merged_up_intervals) in
  uptime_percentage ← py_floordiv (total_uptime * 100) total_period;
  Ok uptime_percentage.

(** [m] is the least (the greatest) element of [l]. *)
Definition is_min (m : Z) (l : list Z) : Prop :=
  m ∈ l /\ forall x, x ∈ l -> m <= x.
Definition is_max (m : Z) (l : list Z) : Prop :=
  m ∈ l /\ forall x, x ∈ l -> x <= m.

(** What the loop of [get_station_reporting_period] holds after the
    station's reports [seen]. *)
Definition period_acc_of (seen : list report) (acc : option Z * option Z)
    : Prop :=
  match acc with
  | (None, None) => seen = []
  | (Some lo, Some hi) =>
    is_min lo (map report_start seen) /\ is_max hi (map report_end seen)
  | _ => False
  end.

(** Time during which some charger of the station is up, inside the
    window [[ws, we)]. *)
Definition total_up (ws we : Z) (merged : list interval) : Z :=
  sum_Z (map (clipped_duration ws we) merged).

(** The value [calculate_station_uptime] returns, in closed form. *)
Definition uptime_value (station_id : Z) (charger_ids : list Z)
    (reports : list report) : Z :=
  let '(ws, we) := get_station_reporting_period station_id charger_ids reports in
  if bool_decide (ws = we) then 0
  else (total_up ws we (merge_sorted (py_sort (up_reports charger_ids reports)))
        * 100) `div` (we - ws).

(** The pair [main] collects for one item of the station dictionary. *)
Definition station_result (reports : list report) (item : Z * list Z)
    : Z * Z :=
  (item.1, uptime_value item.1 item.2 reports).

(** Every reported charger belongs to some station. *)
Definition cross_referenced (stations : list (Z * list Z))
    (reports : list report) : Prop :=
  Forall (fun r => Exists (fun item : Z * list Z => report_charger r ∈ item.2)
                    stations) reports.

Global Instance inside_dec (iv : interval) (x : Z) : Decision (inside iv x).
Proof. unfold inside. apply _. Defined.

(** The ticks of the window [[ws, we)] at which some interval of [l] is
    running. *)
Definition up_ticks (ws we : Z) (l : list interval) : list Z :=
  filter (fun t => Exists (fun iv => inside iv t) l) (seqZ ws (we - ws)).

(** The same report, [d] ticks later. *)
Definition shift_report (d : Z) (r : report) : report :=
  (report_charger r, report_start r + d, report_end r + d, report_is_up r).

(** ** parse_input_file and the whole program

    The parser calls string methods and [int]; they are Python built-ins
    and the parser is modelled for every behaviour of them.  [py_int]
    gives [None] where [int] raises [ValueError]. *)
Class PyStr : Type := {
  str_strip : string -> string;
  str_split_newline : string -> list string;
  str_split : string -> list string;
  str_lower : string -> string;
  py_int : string -> option Z
}.

(** A loop whose body may print ERROR and leave the program ([None]). *)
Fixpoint for_each_exit {A B : Type} (body : B -> A -> option B) (acc : B)
    (l : list A) : option B :=
  match l with
  | [] => Some acc
  | x :: l' => acc' ← body acc x; for_each_exit body acc' l'
  end.

(** [d[k] = v] on a dictionary given by its items in iteration order: a
    key already present keeps its place and takes the new value, a new
    key goes to the end. *)
Fixpoint dict_set {V : Type} (k : Z) (v : V) (d : list (Z * V))
    : list (Z * V) :=
  match d with
  | [] => [(k, v)]
  | (k', v') :: d' =>
    if decide (k = k') then (k, v) :: d' else (k', v') :: dict_set k v d'
  end.

Definition stations_header : string := "[Stations]".
Definition reports_header : string := "[Charger Availability Reports]".

(** [[line.strip() for line in content.split('\n') if line.strip()]],
    after [content = f.read().strip()]. *)
Definition input_lines `{PyStr} (content : string) : list string :=
  map str_strip
    (filter (fun line => str_strip line <> "")
       (str_split_newline (str_strip content))).

(** The scan for the section headers, from line [i] on; the result is
    [(stations_start, reports_start)], [reports_start] being [-1] when the
    loop ends without [break]. *)
Fixpoint find_sections (i : Z) (stations_start : Z) (lines : list string)
    : Z * Z :=
  match lines with
  | [] => (stations_start, -1)
  | line :: rest =>
    if decide (line = stations_header) then find_sections (i + 1) (i + 1) rest
    else if decide (line = reports_header) then (stations_start, i + 1)
    else find_sections (i + 1) stations_start rest
  end.

Definition parse_station_line `{PyStr} (lines : list string)
    (stations : list (Z * list Z)) (i : Z) : option (list (Z * list Z)) :=
  line ← lines !! Z.to_nat i;
  let parts := str_split line in
  if decide (length parts < 2)%nat then None else
  p0 ← parts !! 0%nat;
  station_id ← py_int p0;
  charger_ids ← mapM py_int (drop 1 parts);
  Some (dict_set station_id charger_ids stations).

Definition parse_report_line `{PyStr} (lines : list string)
    (reports : list report) (i : Z) : option (list report) :=
  line ← lines !! Z.to_nat i;
  let parts := str_split line in
  if decide (length parts <> 4%nat) then None else
  p0 ← parts !! 0%nat;
  charger_id ← py_int p0;
  p1 ← parts !! 1%nat;
  start_time ← py_int p1;
  p2 ← parts !! 2%nat;
  end_time ← py_int p2;
  p3 ← parts !! 3%nat;
  let is_up := bool_decide (str_lower p3 = "true") in
  if decide (start_time >= end_time) then None else
  Some (reports ++ [(charger_id, start_time, end_time, is_up)]).

(** The parser from the list of lines on. *)
Definition parse_lines `{PyStr} (lines : list string)
    : option (list (Z * list Z) * list report) :=
  if decide (length lines < 2)%nat then None else
  let '(stations_start, reports_start) := find_sections 0 (-1) lines in
  if decide (stations_start = -1 \/ reports_start = -1) then None else
  stations ← for_each_exit (parse_station_line lines) []
                (seqZ stations_start (reports_start - 1 - stations_start));
  reports ← for_each_exit (parse_report_line lines) []
               (seqZ reports_start (Z.of_nat (length lines) - reports_start));
  Some (stations, reports).

(** [fs] gives the text of the file at a path, [None] when opening or
    reading it raises [FileNotFoundError] or [IOError]; a file that is
    read is taken to decode as text. *)
Definition parse_input_file `{PyStr} (fs : string -> option string)
    (filepath : string) : option (list (Z * list Z) * list report) :=
  content ← fs filepath;
  parse_lines (input_lines content).

(** The program from its command line on: the steps of [main] before the
    cross-reference check, then [main] above. *)
Definition program `{PyStr} (fs : string -> option string)
    (argv : list string) : result outcome :=
  if decide (length argv <> 2%nat) then Ok Exit_ERROR else
  match argv !! 1%nat with
  | None => Raise IndexError
  | Some input_file =>
    match parse_input_file fs input_file with
    | None => Ok Exit_ERROR
    | Some (stations, reports) => main stations reports
    end
  end.

(** What a station line and a report line stand for. *)
Definition station_of_line `{PyStr} (line : string) (item : Z * list Z)
    : Prop :=
  exists p0 ps,
    str_split line = p0 :: ps /\ ps <> [] /\
    py_int p0 = Some item.1 /\
    Forall2 (fun p c => py_int p = Some c) ps item.2.

Definition report_of_line `{PyStr} (line : string) (r : report) : Prop :=
  exists p0 p1 p2 p3,
    str_split line = [p0; p1; p2; p3] /\
    py_int p0 = Some (report_charger r) /\
    py_int p1 = Some (report_start r) /\
    py_int p2 = Some (report_end r) /\
    report_is_up r = bool_decide (str_lower p3 = "true") /\
    report_start r < report_end r.

(** The item a station line yields and the report a report line yields,
    [None] where the loop body prints ERROR. *)
Definition station_item `{PyStr} (line : string) : option (Z * list Z) :=
  let parts := str_split line in
  if decide (length parts < 2)%nat then None else
  p0 ← parts !! 0%nat;
  station_id ← py_int p0;
  charger_ids ← mapM py_int (drop 1 parts);
  Some (station_id, charger_ids).

Definition report_item `{PyStr} (line : string) : option report :=
  let parts := str_split line in
  if decide (length parts <> 4%nat) then None else
  p0 ← parts !! 0%nat;
  charger_id ← py_int p0;
  p1 ← parts !! 1%nat;
  start_time ← py_int p1;
  p2 ← parts !! 2%nat;
  end_time ← py_int p2;
  p3 ← parts !! 3%nat;
  let is_up := bool_decide (str_lower p3 = "true") in
  if decide (start_time >= end_time) then None else
  Some (charger_id, start_time, end_time, is_up).

(** The dictionary built by assigning the items in order. *)
Definition dict_of_items {V : Type} (items : list (Z * V)) : list (Z * V) :=
  foldl (fun d item => dict_set item.1 item.2 d) [] items.

(** *** The built-ins on plain ASCII text

    Space, tab, newline and the other ASCII control separators are
    white space; [int] reads an optional sign and decimal digits. *)
Definition is_space (c : ascii) : bool :=
  let n := nat_of_ascii c in
  (n =? 32)%nat || ((9 <=? n)%nat && (n <=? 13)%nat)
  || ((28 <=? n)%nat && (n <=? 31)%nat).

Fixpoint lstrip_chars (s : list ascii) : list ascii :=
  match s with
  | c :: s' => if is_space c then lstrip_chars s' else s
  | [] => []
  end.

Definition strip_chars (s : list ascii) : list ascii :=
  rev (lstrip_chars (rev (lstrip_chars s))).

Fixpoint split_newline_chars (cur : list ascii) (s : list ascii)
    : list (list ascii) :=
  match s with
  | [] => [rev cur]
  | c :: s' =>
    if (nat_of_ascii c =? 10)%nat then rev cur :: split_newline_chars [] s'
    else split_newline_chars (c :: cur) s'
  end.

Fixpoint split_chars (cur : list ascii) (s : list ascii)
    : list (list ascii) :=
  match s with
  | [] => match cur with [] => [] | _ => [rev cur] end
  | c :: s' =>
    if is_space c then
      match cur with
      | [] => split_chars [] s'
      | _ => rev cur :: split_chars [] s'
      end
    else split_chars (c :: cur) s'
  end.

Definition lower_char (c : ascii) : ascii :=
  let n := nat_of_ascii c in
  if ((65 <=? n)%nat && (n <=? 90)%nat) then ascii_of_nat (n + 32) else c.

Definition digit_of (c : ascii) : option Z :=
  let n := nat_of_ascii c in
  if ((48 <=? n)%nat && (n <=? 57)%nat) then Some (Z.of_nat (n - 48))
  else None.

Definition digits_value (s : list ascii) : option Z :=
  match s with
  | [] => None
  | _ => foldl (fun acc c => a ← acc; d ← digit_of c; Some (10 * a + d))
           (Some 0) s
  end.

Definition int_of_chars (s : list ascii) : option Z :=
  match strip_chars s with
  | c :: s' =>
    if (nat_of_ascii c =? 45)%nat then Z.opp <$> digits_value s'
    else if (nat_of_ascii c =? 43)%nat then digits_value s'
    else digits_value (c :: s')
  | [] => None
  end.

Definition ascii_str : PyStr := {|
  str_strip s := String.string_of_list_ascii (strip_chars (String.list_ascii_of_string s));
  str_split_newline s :=
    map String.string_of_list_ascii (split_newline_chars [] (String.list_ascii_of_string s));
  str_split s :=
    map String.string_of_list_ascii (split_chars [] (String.list_ascii_of_string s));
  str_lower s :=
    String.string_of_list_ascii (map lower_char (String.list_ascii_of_string s));
  py_int s := int_of_chars (String.list_ascii_of_string s)
|}.

(** The input file of the test suite, line by line. *)
Definition sample_file : string :=
  String.concat (String.String "010" String.EmptyString)
    ["[Stations]"; "0 1001 1002"; "1 1003"; "";
     "[Charger Availability Reports]"; "1001 0 100 true";
     "1002 50 150 false"; "1003 25 75 TRUE"].

(** A file without the reports header and one without the stations
    header. *)
Definition sample_no_reports : string :=
  String.concat (String.String "010" String.EmptyString)
    ["[Stations]"; "0 1001 1002"; "1 1003"].

Definition sample_no_stations : string :=
  String.concat (String.String "010" String.EmptyString)
    ["0 1001"; "[Charger Availability Reports]"; "1001 0 100 true"].

Definition sample_fs (path : string) : option string :=
  if decide (path = "input.txt") then Some sample_file
  else if decide (path = "no_reports.txt") then Some sample_no_reports
  else if decide (path = "no_stations.txt") then Some sample_no_stations
  else None.

(** ** The programs on the inputs of the test suite *)

Example merge_touching :
  merge_intervals [(50, 100); (0, 50)] = Ok [(0, 100)].
Proof. vm_compute. reflexivity. Qed.

Example merge_overlapping :
  merge_intervals [(0, 50); (25, 75); (100, 150)] = Ok [(0, 75); (100, 150)].
Proof. vm_compute. reflexivity. Qed.

Example merge_disjoint :
  merge_intervals [(0, 25); (50, 75); (100, 125)]
  = Ok [(0, 25); (50, 75); (100, 125)].
Proof. vm_compute. reflexivity. Qed.

Example period_two_chargers :
  get_station_reporting_period 0 [1001; 1002]
    [(1001, 0, 100, true); (1001, 200, 300, false); (1002, 50, 150, true);
     (1003, 25, 75, true)] = (0, 300).
Proof. vm_compute. reflexivity. Qed.

Example uptime_with_gap :
  calculate_station_uptime 2 [1004]
    [(1004, 0, 50, true); (1004, 100, 200, true)] = Ok 75.
Proof. vm_compute. reflexivity. Qed.

Example uptime_all_down :
  calculate_station_uptime 1 [1003] [(1003, 25, 75, false)] = Ok 0.
Proof. vm_compute. reflexivity. Qed.

Example main_two_stations :
  main [(0, [1001; 1002]); (1, [1003])]
    [(1001, 0, 100, true); (1002, 50, 150, false); (1003, 25, 75, true)]
  = Ok (Printed [(0, 66); (1, 100)]).
Proof. vm_compute. reflexivity. Qed.

Example main_unknown_charger :
  main [(0, [1001])] [(1001, 0, 100, true); (2000, 0, 10, true)]
  = Ok Exit_ERROR.
Proof. vm_compute. reflexivity. Qed.

Example parse_sample :
  @parse_input_file ascii_str sample_fs "input.txt" =
  Some ([(0, [1001; 1002]); (1, [1003])],
        [(1001, 0, 100, true); (1002, 50, 150, false); (1003, 25, 75, true)]).
Proof. vm_compute. reflexivity. Qed.

Example program_sample :
  @program ascii_str sample_fs ["charger_uptime.py"; "input.txt"] =
  Ok (Printed [(0, 66); (1, 100)]).
Proof. vm_compute. reflexivity. Qed.

Example program_missing_file :
  @program ascii_str sample_fs ["charger_uptime.py"; "nothing.txt"] =
  Ok Exit_ERROR.
Proof. vm_compute. reflexivity. Qed.

Example uptime_basic :
  calculate_station_uptime 0 [1001; 1002]
    [(1001, 0, 50, true); (1001, 50, 100, true); (1002, 50, 100, true)] = Ok 100.
Proof. vm_compute. reflexivity. Qed.

(** ** The order of [list.sort] on pairs *)

Global Instance tuple_le_total : Total tuple_le.
Proof. intros [a1 a2] [b1 b2]. unfold tuple_le; simpl. lia. Qed.

Global Instance tuple_le_trans : Transitive tuple_le.
Proof. intros [a1 a2] [b1 b2] [c1 c2]. unfold tuple_le; simpl. lia. Qed.

Global Instance tuple_le_antisymm : AntiSymm (=) tuple_le.
Proof.
  intros [a1 a2] [b1 b2]. unfold tuple_le; simpl. intros H1 H2.
  f_equal; lia.
Qed.

Lemma py_sort_perm (l : list (Z * Z)) : py_sort l ≡ₚ l.
Proof. apply merge_sort_Permutation. Qed.

Lemma py_sort_sorted (l : list (Z * Z)) : StronglySorted tuple_le (py_sort l).
Proof. apply StronglySorted_merge_sort; apply _. Qed.

Lemma py_sort_unique (l1 l2 : list (Z * Z)) :
  l1 ≡ₚ l2 -> py_sort l1 = py_sort l2.
Proof.
  intros Hp. apply (Sorted_unique tuple_le).
  - apply Sorted_merge_sort; apply _.
  - apply Sorted_merge_sort; apply _.
  - rewrite !py_sort_perm. exact Hp.
Qed.

Lemma StronglySorted_weaken {A} (R S : relation A) (l : list A) :
  (forall a b, R a b -> S a b) -> StronglySorted R l -> StronglySorted S l.
Proof.
  intros HRS. induction 1 as [|a l Hl IH Ha]; constructor; [exact IH|].
  eapply Forall_impl; [exact Ha|]. intros b. apply HRS.
Qed.

Lemma py_sort_by_start (l : list interval) :
  StronglySorted start_le (py_sort l).
Proof.
  apply (StronglySorted_weaken tuple_le); [|apply py_sort_sorted].
  intros a b. unfold tuple_le, start_le. lia.
Qed.

(** ** The loop of [merge_intervals] *)

Lemma py_last_snoc {A} (pre : list A) (x : A) : py_last (pre ++ [x]) = Ok x.
Proof. unfold py_last. by rewrite last_snoc. Qed.

Lemma set_last_snoc {A} (pre : list A) (x v : A) :
  set_last (pre ++ [x]) v = pre ++ [v].
Proof.
  unfold set_last. rewrite length_app; simpl.
  replace (pred (length pre + 1)) with (length pre + 0)%nat by lia.
  by rewrite insert_app_r.
Qed.

Lemma merge_step_snoc (pre : list interval) (cur nxt : interval) :
  merge_step (pre ++ [cur]) nxt =
  Ok (if bool_decide (nxt.1 <= cur.2)
      then pre ++ [(cur.1, cur.2 `max` nxt.2)]
      else pre ++ [cur; nxt]).
Proof.
  destruct cur as [ls le], nxt as [cs ce]. unfold merge_step.
  rewrite py_last_snoc. simpl. case_bool_decide.
  - by rewrite set_last_snoc.
  - by rewrite <- app_assoc.
Qed.

Lemma for_each_merge_step (rest : list interval) :
  forall (pre : list interval) (cur : interval),
    for_each merge_step (pre ++ [cur]) rest = Ok (pre ++ merge_from cur rest).
Proof.
  induction rest as [|nxt rest IH]; intros pre cur; simpl; [done|].
  rewrite merge_step_snoc. simpl. case_bool_decide.
  - apply IH.
  - replace (pre ++ [cur; nxt]) with ((pre ++ [cur]) ++ [nxt])
      by (by rewrite <- app_assoc).
    rewrite IH. by rewrite <- app_assoc.
Qed.

Lemma merge_intervals_sorted (l : list interval) :
  merge_intervals l = Ok (merge_sorted (py_sort l)).
Proof.
  unfold merge_intervals. destruct l as [|a l].
  - done.
  - destruct (py_sort (a :: l)) as [|first rest] eqn:Hs.
    + pose proof (py_sort_perm (a :: l)) as Hp. rewrite Hs in Hp.
      apply Permutation_nil_l in Hp. discriminate.
    + simpl. apply (for_each_merge_step rest [] first).
Qed.

(** ** What the merge loop produces *)

Lemma merge_from_head (rest : list interval) :
  forall cur, exists e l, merge_from cur rest = (cur.1, e) :: l.
Proof.
  induction rest as [|nxt rest IH]; intros [s e]; simpl.
  - by exists e, [].
  - case_bool_decide.
    + apply (IH (s, e `max` nxt.2)).
    + by exists e, (merge_from nxt rest).
Qed.

(** Separation needs no assumption on the input: an interval is opened
    only when it starts after the end of the one before it. *)
Lemma merge_from_separated (rest : list interval) :
  forall cur, Sorted gap_before (merge_from cur rest).
Proof.
  induction rest as [|nxt rest IH]; intros cur; simpl.
  - repeat constructor.
  - case_bool_decide as Hle; [apply IH|].
    constructor; [apply IH|].
    destruct (merge_from_head rest nxt) as (e & l & ->).
    constructor. unfold gap_before; simpl. lia.
Qed.

Lemma merge_from_valid (rest : list interval) :
  forall cur, valid cur -> Forall valid rest ->
    Forall valid (merge_from cur rest).
Proof.
  induction rest as [|nxt rest IH]; intros cur Hc Hr; simpl.
  - by constructor.
  - apply Forall_cons in Hr as [Hn Hr]. case_bool_decide.
    + apply IH; [|done]. unfold valid in *; simpl. lia.
    + constructor; [done|]. by apply IH.
Qed.

(** Every merged interval starts at an input start and ends at an input
    end, so bounds on the input carry over to the output. *)
Lemma merge_from_bounds (lo hi : Z) (rest : list interval) :
  forall cur, lo <= cur.1 -> cur.2 <= hi ->
    Forall (fun iv => lo <= iv.1 /\ iv.2 <= hi) rest ->
    Forall (fun iv => lo <= iv.1 /\ iv.2 <= hi) (merge_from cur rest).
Proof.
  induction rest as [|nxt rest IH]; intros cur H1 H2 Hr; simpl.
  - constructor; [done|constructor].
  - apply Forall_cons in Hr as [[Hn1 Hn2] Hr]. case_bool_decide.
    + apply IH; simpl; [done|lia|done].
    + constructor; [done|]. by apply IH.
Qed.

Lemma covers_cons (a : interval) (l : list interval) (x : Z) :
  covers (a :: l) x <-> inside a x \/ covers l x.
Proof.
  unfold covers. split.
  - intros (iv & Hin & Hx). apply elem_of_cons in Hin as [->|Hin]; eauto.
  - intros [Hx|(iv & Hin & Hx)].
    + exists a. split; [left|done].
    + exists iv. split; [by right|done].
Qed.

Lemma covers_nil (x : Z) : ~ covers [] x.
Proof. intros (iv & Hin & _). by apply elem_of_nil in Hin. Qed.

(** On input sorted by start the loop keeps the union of points. *)
Lemma merge_from_covers (rest : list interval) :
  forall cur, StronglySorted start_le (cur :: rest) ->
    forall x, covers (merge_from cur rest) x <-> covers (cur :: rest) x.
Proof.
  induction rest as [|nxt rest IH]; intros cur Hs x; simpl; [done|].
  apply StronglySorted_inv in Hs as [Hs Hhd].
  apply Forall_cons in Hhd as [Hcn Hhd].
  apply StronglySorted_inv in Hs as [Hs Hnr].
  case_bool_decide as Hle.
  - rewrite IH.
    + assert (inside (cur.1, cur.2 `max` nxt.2) x <->
              inside cur x \/ inside nxt x) as Hx
        by (unfold inside, start_le in *; simpl; lia).
      rewrite !covers_cons. tauto.
    + constructor; [done|]. eapply Forall_impl; [exact Hhd|].
      intros b. unfold start_le; simpl. done.
  - rewrite covers_cons, (covers_cons cur (nxt :: rest)), IH; [done|].
    by constructor.
Qed.

Lemma covers_perm (l1 l2 : list interval) (x : Z) :
  l1 ≡ₚ l2 -> covers l1 x <-> covers l2 x.
Proof.
  intros Hp. unfold covers. split; intros (iv & Hin & Hx); exists iv.
  - by rewrite <- Hp.
  - by rewrite Hp.
Qed.

Lemma merge_sorted_covers (l : list interval) (x : Z) :
  StronglySorted start_le l -> covers (merge_sorted l) x <-> covers l x.
Proof.
  destruct l as [|a l]; [done|]. intros Hs. by apply merge_from_covers.
Qed.

Lemma merge_sorted_separated (l : list interval) :
  Sorted gap_before (merge_sorted l).
Proof. destruct l; [constructor|apply merge_from_separated]. Qed.

Lemma merge_sorted_valid (l : list interval) :
  Forall valid l -> Forall valid (merge_sorted l).
Proof.
  destruct l as [|a l]; [done|]. intros [Ha Hl]%Forall_cons.
  by apply merge_from_valid.
Qed.

Lemma merge_sorted_bounds (lo hi : Z) (l : list interval) :
  Forall (fun iv => lo <= iv.1 /\ iv.2 <= hi) l ->
  Forall (fun iv => lo <= iv.1 /\ iv.2 <= hi) (merge_sorted l).
Proof.
  destruct l as [|a l]; [done|]. intros [[H1 H2] Hl]%Forall_cons.
  by apply merge_from_bounds.
Qed.

(** ** Separated lists of proper intervals *)

Lemma separated_strongly (l : list interval) :
  Sorted gap_before l -> Forall valid l -> StronglySorted gap_before l.
Proof.
  induction 1 as [|a l Hs IH Hhd]; intros Hv; [constructor|].
  apply Forall_cons in Hv as [Ha Hv]. specialize (IH Hv).
  constructor; [done|].
  destruct Hhd as [|b l' Hab]; [constructor|].
  apply StronglySorted_inv in IH as [_ Hb].
  apply Forall_cons in Hv as [Hbv _].
  constructor; [done|]. eapply Forall_impl; [exact Hb|].
  intros c. unfold gap_before, valid in *. lia.
Qed.

Lemma separated_end_free (l : list interval) :
  StronglySorted gap_before l -> Forall valid l ->
  forall iv, iv ∈ l -> ~ covers l iv.2.
Proof.
  induction 1 as [|a l Hs IH Ha]; intros Hv iv Hin.
  - by apply elem_of_nil in Hin.
  - apply Forall_cons in Hv as [Hav Hv].
    rewrite covers_cons. rewrite Forall_forall in Ha.
    apply elem_of_cons in Hin as [->|Hin].
    + intros [Hx|(b & Hb & Hx)]; unfold inside in Hx; [lia|].
      specialize (Ha b Hb). unfold gap_before in Ha. lia.
    + intros [Hx|Hc]; [|by apply (IH Hv iv Hin)].
      specialize (Ha iv Hin). rewrite Forall_forall in Hv.
      specialize (Hv iv Hin). unfold inside, gap_before, valid in *. lia.
Qed.

(** A separated list is the shortest cover of its union: two of its
    intervals never start inside one interval of another cover, because
    the end of the first lies between them and is not covered. *)
Lemma separated_shortest (m : list interval) :
  StronglySorted gap_before m -> Forall valid m ->
  forall m' : list interval,
    (forall x, covers m x -> covers m' x) ->
    (forall iv, iv ∈ m -> ~ covers m' iv.2) ->
    (length m <= length m')%nat.
Proof.
  induction 1 as [|a m Hs IH Ha]; intros Hv m' Hsub Hfree; simpl; [lia|].
  apply Forall_cons in Hv as [Hav Hv]. rewrite Forall_forall in Ha.
  destruct (Hsub a.1) as (iv' & Hin' & Hx').
  { apply covers_cons. left. unfold inside, valid in *. lia. }
  apply elem_of_Permutation in Hin' as [m'' Hp].
  assert (length m <= length m'')%nat as Hlen.
  { apply (IH Hv).
    - intros x (b & Hb & Hx).
      assert (covers m' x) as Hc.
      { apply Hsub. apply covers_cons. right. by exists b. }
      rewrite (covers_perm _ _ x Hp) in Hc.
      apply covers_cons in Hc as [Hc|Hc]; [|done].
      exfalso. apply (Hfree a); [left|].
      rewrite (covers_perm _ _ _ Hp). apply covers_cons. left.
      specialize (Ha b Hb). unfold inside, gap_before, valid in *. lia.
    - intros iv Hiv Hc. apply (Hfree iv); [by right|].
      rewrite (covers_perm _ _ _ Hp). apply covers_cons. by right. }
  rewrite Hp. simpl. lia.
Qed.

Lemma StronglySorted_lookup_lt {A} (R : relation A) (l : list A) :
  StronglySorted R l ->
  forall (i j : nat) (a b : A),
    (i < j)%nat -> l !! i = Some a -> l !! j = Some b -> R a b.
Proof.
  induction 1 as [|x l Hs IH Hx]; intros i j a b Hij Hi Hj.
  - by rewrite lookup_nil in Hi.
  - destruct j as [|j]; [lia|]. simpl in Hj. destruct i as [|i].
    + simpl in Hi. injection Hi as ->.
      rewrite Forall_forall in Hx. apply Hx.
      by apply list_elem_of_lookup_2 in Hj.
    + simpl in Hi. apply (IH i j); [lia|done|done].
Qed.

Lemma separated_starts (l : list interval) :
  StronglySorted gap_before l -> Forall valid l ->
  StronglySorted (fun a b : interval => a.1 < b.1) l.
Proof.
  induction 1 as [|a l Hs IH Ha]; intros Hv; [constructor|].
  apply Forall_cons in Hv as [Hav Hv]. constructor.
  - by apply IH.
  - eapply Forall_impl; [exact Ha|]. intros b.
    unfold gap_before, valid in *. lia.
Qed.

(** The result of [merge_intervals] on proper intervals, in one place. *)
Lemma merge_intervals_spec (intervals : list interval) :
  Forall valid intervals ->
  let merged := merge_sorted (py_sort intervals) in
  merge_intervals intervals = Ok merged /\
  StronglySorted gap_before merged /\
  Forall valid merged /\
  (forall x, covers merged x <-> covers intervals x).
Proof.
  intros Hv merged.
  assert (Forall valid (py_sort intervals)) as Hvs by (by rewrite py_sort_perm).
  assert (Forall valid merged) as Hvm by (by apply merge_sorted_valid).
  split; [apply merge_intervals_sorted|].
  split; [apply separated_strongly; [apply merge_sorted_separated|done]|].
  split; [done|].
  intros x. unfold merged.
  rewrite merge_sorted_covers by apply py_sort_by_start.
  apply covers_perm, py_sort_perm.
Qed.

(** ** Claims about the Interval Merger *)

(** C2. On intervals with [start < end], [merge_intervals] returns the
    minimal sorted list of disjoint half-open intervals with the same
    union of points: the result is sorted by start, its intervals are
    proper and separated by a gap (so neither overlapping nor touching),
    it covers exactly the points of the input, and no list of intervals
    with that union is shorter.  The loop merges an interval whose start
    is less than or equal to the end of the last merged interval (touching
    included) by extending that end to the maximum of the two ends, and
    opens a new interval otherwise.  The empty input gives the empty
    output. *)
Theorem merge_intervals_minimal_cover (intervals : list interval) :
  Forall valid intervals ->
  (exists merged,
    merge_intervals intervals = Ok merged /\
    StronglySorted (fun a b : interval => a.1 < b.1) merged /\
    StronglySorted gap_before merged /\
    Forall valid merged /\
    (forall x, covers merged x <-> covers intervals x) /\
    (forall other : list interval,
       (forall x, covers other x <-> covers intervals x) ->
       (length merged <= length other)%nat)) /\
  (forall (pre : list interval) (last_start last_end cur_start cur_end : Z),
     merge_step (pre ++ [(last_start, last_end)]) (cur_start, cur_end) =
     Ok (if bool_decide (cur_start <= last_end)
         then pre ++ [(last_start, last_end `max` cur_end)]
         else pre ++ [(last_start, last_end); (cur_start, cur_end)])) /\
  merge_intervals [] = Ok [].
Proof.
  intros Hv. split; [|split; [|done]].
  - destruct (merge_intervals_spec intervals Hv) as (Hm & Hsep & Hvm & Hcov).
    exists (merge_sorted (py_sort intervals)).
    split; [done|]. split; [by apply separated_starts|].
    split; [done|]. split; [done|]. split; [done|].
    intros other Hother. apply separated_shortest; [done|done| |].
    + intros x Hx. apply Hother, Hcov, Hx.
    + intros iv Hiv Hc. apply (separated_end_free _ Hsep Hvm iv Hiv).
      apply Hcov, Hother, Hc.
  - intros pre ls le cs ce. apply (merge_step_snoc pre (ls, le) (cs, ce)).
Qed.

Lemma merge_intervals_minimal_cover_witness :
  Forall valid [(50, 100); (0, 50); (200, 300); (60, 70)] /\
  exists merged,
    merge_intervals [(50, 100); (0, 50); (200, 300); (60, 70)] = Ok merged /\
    Forall valid merged /\
    (length merged <= 2)%nat.
Proof.
  assert (Forall valid [(50, 100); (0, 50); (200, 300); (60, 70)]) as Hv
    by (repeat constructor; unfold valid; simpl; lia).
  split; [exact Hv|].
  destruct (merge_intervals_minimal_cover _ Hv)
    as [(merged & Hm & _ & _ & Hvm & _ & Hmin) _].
  exists merged. split; [exact Hm|]. split; [exact Hvm|].
  apply (Hmin [(200, 300); (0, 100)]). intros x. rewrite !covers_cons. unfold inside; simpl.
  pose proof (covers_nil x). intuition lia.
Defined.

(** C7. On intervals with [start < end], the output of [merge_intervals]
    is sorted by start, and each output interval ends strictly before the
    next one starts: [merged[i].end < merged[i+1].start].  Touching
    intervals are never left as two output intervals. *)
Theorem merge_intervals_strictly_separated (intervals : list interval) :
  Forall valid intervals ->
  exists merged,
    merge_intervals intervals = Ok merged /\
    (forall (i j : nat) (a b : interval),
       (i < j)%nat -> merged !! i = Some a -> merged !! j = Some b ->
       a.1 < b.1) /\
    (forall (i : nat) (a b : interval),
       merged !! i = Some a -> merged !! S i = Some b -> a.2 < b.1).
Proof.
  intros Hv.
  destruct (merge_intervals_spec intervals Hv) as (Hm & Hsep & Hvm & _).
  exists (merge_sorted (py_sort intervals)). split; [done|]. split.
  - apply (StronglySorted_lookup_lt (fun a b : interval => a.1 < b.1)).
    by apply separated_starts.
  - intros i a b Hi Hj.
    apply (StronglySorted_lookup_lt gap_before _ Hsep i (S i)); [lia|done|done].
Qed.

Lemma merge_intervals_strictly_separated_witness :
  Forall valid [(100, 125); (0, 25); (50, 75); (25, 40)] /\
  exists merged,
    merge_intervals [(100, 125); (0, 25); (50, 75); (25, 40)] = Ok merged /\
    (forall (i : nat) (a b : interval),
       merged !! i = Some a -> merged !! S i = Some b -> a.2 < b.1).
Proof.
  assert (Forall valid [(100, 125); (0, 25); (50, 75); (25, 40)]) as Hv
    by (repeat constructor; unfold valid; simpl; lia).
  split; [exact Hv|].
  destruct (merge_intervals_strictly_separated _ Hv) as (merged & Hm & _ & Hgap).
  exists merged. split; [exact Hm|exact Hgap].
Defined.

(** C8. Two lists of intervals with [start < end] that are permutations of
    each other have the same merge result: [merge_intervals] returns, and
    its result does not depend on the order of the input, whatever the
    order of intervals with equal starts. *)
Theorem merge_intervals_order_independent (l1 l2 : list interval) :
  Forall valid l1 -> Forall valid l2 -> l1 ≡ₚ l2 ->
  exists merged,
    merge_intervals l1 = Ok merged /\ merge_intervals l2 = Ok merged.
Proof.
  intros _ _ Hp. exists (merge_sorted (py_sort l1)).
  rewrite !merge_intervals_sorted. by rewrite (py_sort_unique l1 l2 Hp).
Qed.

Lemma merge_intervals_order_independent_witness :
  exists merged,
    merge_intervals [(0, 50); (0, 20); (50, 100); (200, 300)] = Ok merged /\
    merge_intervals [(200, 300); (50, 100); (0, 20); (0, 50)] = Ok merged.
Proof.
  apply merge_intervals_order_independent.
  - repeat constructor; unfold valid; simpl; lia.
  - repeat constructor; unfold valid; simpl; lia.
  - apply (Permutation_rev [(0, 50); (0, 20); (50, 100); (200, 300)]).
Defined.

(** ** The loop of [get_station_reporting_period] *)

Lemma elem_of_station_set (c : Z) (charger_ids : list Z) :
  c ∈ (list_to_set charger_ids : gset Z) <-> c ∈ charger_ids.
Proof. apply elem_of_list_to_set. Qed.

Lemma station_reports_cons (charger_ids : list Z) (r : report)
    (reports : list report) :
  station_reports charger_ids (r :: reports) =
  if bool_decide (report_charger r ∈ charger_ids)
  then r :: station_reports charger_ids reports
  else station_reports charger_ids reports.
Proof.
  unfold station_reports. rewrite filter_cons.
  case_bool_decide; by case_decide.
Qed.

Lemma is_min_snoc (lo x : Z) (l : list Z) :
  is_min lo l -> is_min (if bool_decide (x < lo) then x else lo) (l ++ [x]).
Proof.
  intros [Hin Hle]. unfold is_min. case_bool_decide; split.
  - apply elem_of_app. right. by left.
  - intros y [Hy|Hy%list_elem_of_singleton]%elem_of_app; [|lia].
    specialize (Hle y Hy). lia.
  - apply elem_of_app. by left.
  - intros y [Hy|Hy%list_elem_of_singleton]%elem_of_app; [|lia].
    by apply Hle.
Qed.

Lemma is_max_snoc (hi x : Z) (l : list Z) :
  is_max hi l -> is_max (if bool_decide (x > hi) then x else hi) (l ++ [x]).
Proof.
  intros [Hin Hle]. unfold is_max. case_bool_decide; split.
  - apply elem_of_app. right. by left.
  - intros y [Hy|Hy%list_elem_of_singleton]%elem_of_app; [|lia].
    specialize (Hle y Hy). lia.
  - apply elem_of_app. by left.
  - intros y [Hy|Hy%list_elem_of_singleton]%elem_of_app; [|lia].
    by apply Hle.
Qed.

Lemma is_min_singleton (x : Z) : is_min x [x].
Proof.
  split; [by left|]. intros y Hy%list_elem_of_singleton. lia.
Qed.

Lemma is_max_singleton (x : Z) : is_max x [x].
Proof.
  split; [by left|]. intros y Hy%list_elem_of_singleton. lia.
Qed.

Lemma period_step_acc (charger_ids : list Z) (seen : list report)
    (acc : option Z * option Z) (r : report) :
  period_acc_of seen acc ->
  period_acc_of
    (if bool_decide (report_charger r ∈ charger_ids) then seen ++ [r] else seen)
    (period_step (list_to_set charger_ids) acc r).
Proof.
  destruct r as [[[c s] e] up]. destruct acc as [lo hi].
  unfold period_step, report_charger; simpl. intros Hacc.
  rewrite (bool_decide_ext _ _ (elem_of_station_set c charger_ids)).
  case_bool_decide; [|done].
  unfold period_acc_of in *.
  destruct lo as [lo|], hi as [hi|]; try done.
  - destruct Hacc as [Hlo Hhi]. rewrite !map_app. simpl.
    pose proof (is_min_snoc lo s _ Hlo) as H1.
    pose proof (is_max_snoc hi e _ Hhi) as H2.
    repeat case_bool_decide; by split.
  - subst seen. simpl. split; [apply is_min_singleton|apply is_max_singleton].
Qed.

Lemma period_fold_acc (charger_ids : list Z) (reports : list report) :
  forall (seen : list report) (acc : option Z * option Z),
    period_acc_of seen acc ->
    period_acc_of (seen ++ station_reports charger_ids reports)
      (foldl (period_step (list_to_set charger_ids)) acc reports).
Proof.
  induction reports as [|r reports IH]; intros seen acc Hacc; simpl.
  - unfold station_reports. simpl. by rewrite app_nil_r.
  - rewrite station_reports_cons.
    pose proof (period_step_acc charger_ids seen acc r Hacc) as Hstep.
    apply IH in Hstep. case_bool_decide; [|done].
    by rewrite <- app_assoc in Hstep.
Qed.

Lemma period_acc (charger_ids : list Z) (reports : list report) :
  period_acc_of (station_reports charger_ids reports)
    (foldl (period_step (list_to_set charger_ids)) (None, None) reports).
Proof. apply (period_fold_acc charger_ids reports [] (None, None)). done. Qed.

Lemma period_of_none (station_id : Z) (charger_ids : list Z)
    (reports : list report) :
  station_reports charger_ids reports = [] ->
  get_station_reporting_period station_id charger_ids reports = (0, 0).
Proof.
  intros Hown. pose proof (period_acc charger_ids reports) as Hacc.
  unfold get_station_reporting_period.
  destruct (foldl _ _ reports) as [[lo|] [hi|]]; simpl in Hacc; try done.
  destruct Hacc as [[Hin _] _]. rewrite Hown in Hin.
  by apply elem_of_nil in Hin.
Qed.

Lemma period_of_some (station_id : Z) (charger_ids : list Z)
    (reports : list report) :
  station_reports charger_ids reports <> [] ->
  exists min_start max_end,
    get_station_reporting_period station_id charger_ids reports
      = (min_start, max_end) /\
    is_min min_start (map report_start (station_reports charger_ids reports)) /\
    is_max max_end (map report_end (station_reports charger_ids reports)).
Proof.
  intros Hown. pose proof (period_acc charger_ids reports) as Hacc.
  unfold get_station_reporting_period.
  destruct (foldl _ _ reports) as [[lo|] [hi|]]; simpl in Hacc; try done.
  by exists lo, hi.
Qed.

(** ** Claim about the Window Resolver *)

(** C3. [get_station_reporting_period] returns the pair of the minimum
    start and the maximum end over the reports whose charger is in the
    station's set, and the pair [(0, 0)] when there is no such report. *)
Theorem get_station_reporting_period_min_max (station_id : Z)
    (charger_ids : list Z) (reports : list report) :
  let own := station_reports charger_ids reports in
  (forall r, r ∈ own <-> r ∈ reports /\ report_charger r ∈ charger_ids) /\
  (own = [] ->
   get_station_reporting_period station_id charger_ids reports = (0, 0)) /\
  (own <> [] ->
   exists min_start max_end,
     get_station_reporting_period station_id charger_ids reports
       = (min_start, max_end) /\
     is_min min_start (map report_start own) /\
     is_max max_end (map report_end own)).
Proof.
  intros own. split; [|split].
  - intros r. unfold own, station_reports. rewrite list_elem_of_filter. tauto.
  - apply period_of_none.
  - apply period_of_some.
Qed.

Lemma get_station_reporting_period_min_max_witness :
  get_station_reporting_period 7 [9999]
    [(1001, 0, 100, true); (1002, 50, 150, true)] = (0, 0) /\
  exists min_start max_end,
    get_station_reporting_period 0 [1001; 1002]
      [(1001, 0, 100, true); (1001, 200, 300, false); (1002, 50, 150, true);
       (1003, 25, 75, true)] = (min_start, max_end) /\
    is_min min_start [0; 200; 50] /\ is_max max_end [100; 300; 150].
Proof.
  split.
  - apply (get_station_reporting_period_min_max 7 [9999]
             [(1001, 0, 100, true); (1002, 50, 150, true)]).
    reflexivity.
  - apply (get_station_reporting_period_min_max 0 [1001; 1002]
             [(1001, 0, 100, true); (1001, 200, 300, false);
              (1002, 50, 150, true); (1003, 25, 75, true)]).
    discriminate.
Defined.

Lemma period_bounds (station_id : Z) (charger_ids : list Z)
    (reports : list report) (ws we : Z) :
  get_station_reporting_period station_id charger_ids reports = (ws, we) ->
  forall r, r ∈ station_reports charger_ids reports ->
    ws <= report_start r /\ report_end r <= we.
Proof.
  intros Hw r Hr.
  destruct (period_of_some station_id charger_ids reports)
    as (lo & hi & Heq & [_ Hlo] & [_ Hhi]).
  { intros Hnil. rewrite Hnil in Hr. by apply elem_of_nil in Hr. }
  rewrite Hw in Heq. injection Heq as <- <-. split.
  - apply Hlo. by apply list_elem_of_fmap_2.
  - apply Hhi. by apply list_elem_of_fmap_2.
Qed.

(** ** The loops of [calculate_station_uptime] *)

Lemma up_reports_cons (charger_ids : list Z) (r : report)
    (reports : list report) :
  up_reports charger_ids (r :: reports) =
  if bool_decide (report_charger r ∈ charger_ids) && report_is_up r
  then (report_start r, report_end r) :: up_reports charger_ids reports
  else up_reports charger_ids reports.
Proof.
  unfold up_reports. rewrite station_reports_cons.
  case_bool_decide; simpl; [|done].
  rewrite filter_cons. destruct (report_is_up r); by case_decide.
Qed.

Lemma collect_up_fold (charger_ids : list Z) (reports : list report) :
  forall acc : list interval,
    foldl (collect_up (list_to_set charger_ids)) acc reports =
    acc ++ up_reports charger_ids reports.
Proof.
  induction reports as [|r reports IH]; intros acc; simpl.
  - unfold up_reports, station_reports. simpl. by rewrite app_nil_r.
  - rewrite IH, up_reports_cons. destruct r as [[[c s] e] up].
    unfold collect_up, report_charger, report_is_up, report_start, report_end.
    simpl.
    rewrite (bool_decide_ext _ _ (elem_of_station_set c charger_ids)).
    destruct (bool_decide (c ∈ charger_ids) && up); [|done].
    by rewrite <- app_assoc.
Qed.

Lemma clip_add_fold (ws we : Z) (merged : list interval) :
  forall acc : Z,
    foldl (clip_add ws we) acc merged = acc + total_up ws we merged.
Proof.
  unfold total_up.
  induction merged as [|[s e] merged IH]; intros acc; simpl; [lia|].
  rewrite IH. unfold clip_add, clipped_duration; simpl.
  case_bool_decide; lia.
Qed.

Lemma calculate_station_uptime_value (station_id : Z) (charger_ids : list Z)
    (reports : list report) :
  calculate_station_uptime station_id charger_ids reports =
  Ok (uptime_value station_id charger_ids reports).
Proof.
  unfold calculate_station_uptime, uptime_value.
  destruct (get_station_reporting_period _ _ _) as [ws we].
  case_bool_decide as Hw; [done|].
  rewrite (collect_up_fold charger_ids reports []). simpl.
  rewrite merge_intervals_sorted. simpl.
  rewrite clip_add_fold. unfold py_floordiv.
  rewrite bool_decide_eq_false_2 by lia. simpl.
  by rewrite Z.add_0_l.
Qed.

Lemma total_up_nonneg (ws we : Z) (merged : list interval) :
  0 <= total_up ws we merged.
Proof.
  unfold total_up. induction merged as [|iv merged IH]; simpl; [lia|].
  unfold clipped_duration at 1. lia.
Qed.

Lemma total_up_empty_window (ws we : Z) (merged : list interval) :
  we <= ws -> total_up ws we merged = 0.
Proof.
  intros Hw. unfold total_up.
  induction merged as [|iv merged IH]; simpl; [done|].
  rewrite IH. unfold clipped_duration. lia.
Qed.

(** ** Claims about the Uptime Calculator *)

(** C1. When the resolved window has [window_start <> window_end],
    [calculate_station_uptime] returns [total_up * 100] divided by the
    window span with integer division rounding down (equally: truncating),
    where [total_up] adds up the merged up-intervals of the station's
    chargers, each clipped to the window.  The result is never rounded to
    nearest or up; an up-duration of 10 over a span of 30 gives 33. *)
Theorem calculate_station_uptime_floor (station_id : Z) (charger_ids : list Z)
    (reports : list report) (window_start window_end : Z) :
  get_station_reporting_period station_id charger_ids reports
    = (window_start, window_end) ->
  window_start <> window_end ->
  (exists (merged : list interval) (up percentage : Z),
    merge_intervals (up_reports charger_ids reports) = Ok merged /\
    up = total_up window_start window_end merged /\
    calculate_station_uptime station_id charger_ids reports = Ok percentage /\
    percentage = (up * 100) `div` (window_end - window_start) /\
    percentage = (up * 100) `quot` (window_end - window_start) /\
    (0 < window_end - window_start ->
     percentage * (window_end - window_start) <= up * 100
       < (percentage + 1) * (window_end - window_start)) /\
    (up = 10 -> window_end - window_start = 30 -> percentage = 33)) /\
  calculate_station_uptime 0 [1001]
    [(1001, 0, 10, true); (1001, 10, 30, false)] = Ok 33.
Proof.
  intros Hw Hne. split; [|by vm_compute].
  set (merged := merge_sorted (py_sort (up_reports charger_ids reports))).
  set (up := total_up window_start window_end merged).
  set (span := window_end - window_start).
  exists merged, up, ((up * 100) `div` span).
  split; [apply merge_intervals_sorted|]. split; [done|].
  split.
  { rewrite calculate_station_uptime_value. unfold uptime_value.
    rewrite Hw. rewrite bool_decide_eq_false_2 by done. done. }
  split; [done|].
  pose proof (total_up_nonneg window_start window_end merged) as Hup.
  fold up in Hup. split; [|split].
  - destruct (decide (0 < span)) as [Hpos|Hneg].
    + symmetry. apply Z.quot_div_nonneg; lia.
    + assert (up = 0) as ->.
      { unfold up. apply total_up_empty_window. unfold span in *. lia. }
      reflexivity.
  - intros Hpos.
    pose proof (Z.mul_div_le (up * 100) span Hpos).
    pose proof (Z.mul_succ_div_gt (up * 100) span Hpos). lia.
  - intros Hten Hspan. rewrite Hten, Hspan. reflexivity.
Qed.

Lemma calculate_station_uptime_floor_witness :
  exists (merged : list interval) (up percentage : Z),
    merge_intervals (up_reports [1004]
      [(1004, 0, 50, true); (1004, 100, 200, true)]) = Ok merged /\
    up = total_up 0 200 merged /\
    calculate_station_uptime 2 [1004]
      [(1004, 0, 50, true); (1004, 100, 200, true)] = Ok percentage /\
    percentage = (up * 100) `div` (200 - 0).
Proof.
  destruct (calculate_station_uptime_floor 2 [1004]
              [(1004, 0, 50, true); (1004, 100, 200, true)] 0 200)
    as [(merged & up & percentage & Hm & Hup & Hc & Hdiv & _) _].
  - reflexivity.
  - lia.
  - exists merged, up, percentage. repeat split; assumption.
Defined.

(** C5. When the resolved window has [start = end], which includes the
    pair [(0, 0)] of a station without reports, [calculate_station_uptime]
    returns 0 and raises nothing. *)
Theorem calculate_station_uptime_empty_window (station_id : Z)
    (charger_ids : list Z) (reports : list report) :
  (forall window_start window_end : Z,
     get_station_reporting_period station_id charger_ids reports
       = (window_start, window_end) ->
     window_start = window_end ->
     calculate_station_uptime station_id charger_ids reports = Ok 0) /\
  (station_reports charger_ids reports = [] ->
   get_station_reporting_period station_id charger_ids reports = (0, 0) /\
   calculate_station_uptime station_id charger_ids reports = Ok 0).
Proof.
  assert (forall ws we : Z,
    get_station_reporting_period station_id charger_ids reports = (ws, we) ->
    ws = we ->
    calculate_station_uptime station_id charger_ids reports = Ok 0) as Hzero.
  { intros ws we Hw Heq. unfold calculate_station_uptime. rewrite Hw.
    by rewrite bool_decide_eq_true_2. }
  split; [exact Hzero|].
  intros Hnone. pose proof (period_of_none station_id _ _ Hnone) as Hw.
  split; [done|]. by apply (Hzero 0 0).
Qed.

Lemma calculate_station_uptime_empty_window_witness :
  calculate_station_uptime 3 [1005] [(1001, 0, 100, true)] = Ok 0 /\
  calculate_station_uptime 4 [] [(1001, 0, 100, true)] = Ok 0.
Proof.
  split.
  - apply (proj1 (calculate_station_uptime_empty_window 3 [1005]
                    [(1001, 0, 100, true)]) 0 0); reflexivity.
  - apply (proj2 (calculate_station_uptime_empty_window 4 []
                    [(1001, 0, 100, true)])). reflexivity.
Defined.

(** ** Merged up-intervals and the window *)

Lemma up_reports_elem (charger_ids : list Z) (reports : list report)
    (iv : interval) :
  iv ∈ up_reports charger_ids reports ->
  exists r, r ∈ station_reports charger_ids reports /\ r ∈ reports /\
            iv = (report_start r, report_end r).
Proof.
  unfold up_reports. intros (r & -> & Hr)%list_elem_of_fmap.
  apply list_elem_of_filter in Hr as [_ Hr]. exists r.
  split; [done|]. split; [|done].
  unfold station_reports in Hr. by apply list_elem_of_filter in Hr as [_ Hr].
Qed.

Lemma up_reports_inside (station_id : Z) (charger_ids : list Z)
    (reports : list report) (ws we : Z) :
  get_station_reporting_period station_id charger_ids reports = (ws, we) ->
  Forall (fun iv : interval => ws <= iv.1 /\ iv.2 <= we)
    (up_reports charger_ids reports).
Proof.
  intros Hw. apply Forall_forall. intros iv Hiv.
  apply up_reports_elem in Hiv as (r & Hr & _ & ->). simpl.
  by apply (period_bounds station_id charger_ids reports).
Qed.

Lemma up_reports_valid (charger_ids : list Z) (reports : list report) :
  Forall report_valid reports -> Forall valid (up_reports charger_ids reports).
Proof.
  intros Hv. apply Forall_forall. intros iv Hiv.
  apply up_reports_elem in Hiv as (r & _ & Hr & ->).
  rewrite Forall_forall in Hv. apply (Hv r Hr).
Qed.

Lemma merged_up_inside (station_id : Z) (charger_ids : list Z)
    (reports : list report) (ws we : Z) :
  get_station_reporting_period station_id charger_ids reports = (ws, we) ->
  Forall (fun iv : interval => ws <= iv.1 /\ iv.2 <= we)
    (merge_sorted (py_sort (up_reports charger_ids reports))).
Proof.
  intros Hw. apply merge_sorted_bounds. rewrite py_sort_perm.
  by apply (up_reports_inside station_id).
Qed.

Lemma merged_up_valid (charger_ids : list Z) (reports : list report) :
  Forall report_valid reports ->
  Forall valid (merge_sorted (py_sort (up_reports charger_ids reports))).
Proof.
  intros Hv. apply merge_sorted_valid. rewrite py_sort_perm.
  by apply up_reports_valid.
Qed.

Lemma clipped_duration_inside (ws we : Z) (iv : interval) :
  ws <= iv.1 -> iv.2 <= we -> valid iv ->
  clipped_duration ws we iv = duration iv.
Proof. unfold clipped_duration, duration, valid. lia. Qed.

Lemma total_up_inside (ws we : Z) (merged : list interval) :
  Forall (fun iv : interval => ws <= iv.1 /\ iv.2 <= we) merged ->
  Forall valid merged ->
  total_up ws we merged = sum_Z (map duration merged).
Proof.
  unfold total_up. induction 1 as [|iv merged [H1 H2] Hin IH]; [done|].
  intros [Hv Hvs]%Forall_cons. simpl.
  rewrite IH by done. by rewrite clipped_duration_inside.
Qed.

(** Separated intervals inside [[lo, hi]] cannot last longer than it. *)
Lemma separated_duration_le (l : list interval) :
  StronglySorted gap_before l -> Forall valid l ->
  forall lo hi : Z,
    lo <= hi ->
    Forall (fun iv : interval => lo <= iv.1 /\ iv.2 <= hi) l ->
    sum_Z (map duration l) <= hi - lo.
Proof.
  induction 1 as [|a l Hs IH Ha]; intros Hv lo hi Hlh Hb; simpl; [lia|].
  apply Forall_cons in Hv as [Hav Hv].
  apply Forall_cons in Hb as [[Hlo Hhi] Hb].
  assert (sum_Z (map duration l) <= hi - a.2) as Hrest.
  { apply (IH Hv); [done|].
    rewrite Forall_forall in Ha, Hb. apply Forall_forall. intros b Hin.
    specialize (Ha b Hin). specialize (Hb b Hin).
    unfold gap_before in Ha. lia. }
  unfold duration at 1. lia.
Qed.

Lemma window_proper (station_id : Z) (charger_ids : list Z)
    (reports : list report) (ws we : Z) :
  Forall report_valid reports ->
  get_station_reporting_period station_id charger_ids reports = (ws, we) ->
  ws <> we -> ws < we.
Proof.
  intros Hv Hw Hne.
  destruct (station_reports charger_ids reports) as [|r own] eqn:Hown.
  - rewrite (period_of_none station_id _ _ Hown) in Hw.
    injection Hw as <- <-. done.
  - assert (r ∈ station_reports charger_ids reports) as Hr
      by (rewrite Hown; left).
    pose proof (period_bounds station_id _ _ ws we Hw r Hr) as [H1 H2].
    unfold station_reports in Hr. apply list_elem_of_filter in Hr as [_ Hr].
    rewrite Forall_forall in Hv. specialize (Hv r Hr).
    unfold report_valid in Hv. lia.
Qed.

Lemma calculate_station_uptime_unclipped_value (station_id : Z)
    (charger_ids : list Z) (reports : list report) :
  calculate_station_uptime_unclipped station_id charger_ids reports =
  let '(ws, we) := get_station_reporting_period station_id charger_ids reports in
  if bool_decide (ws = we) then Ok 0
  else Ok ((sum_Z (map duration
              (merge_sorted (py_sort (up_reports charger_ids reports)))) * 100)
           `div` (we - ws)).
Proof.
  unfold calculate_station_uptime_unclipped.
  destruct (get_station_reporting_period _ _ _) as [ws we].
  case_bool_decide as Hw; [done|].
  rewrite (collect_up_fold charger_ids reports []). simpl.
  rewrite merge_intervals_sorted. simpl. unfold py_floordiv.
  by rewrite bool_decide_eq_false_2 by lia.
Qed.

(** C6. When every report has [start < end], [calculate_station_uptime]
    returns an integer between 0 and 100, both included. *)
Theorem calculate_station_uptime_range (station_id : Z) (charger_ids : list Z)
    (reports : list report) :
  Forall report_valid reports ->
  exists percentage : Z,
    calculate_station_uptime station_id charger_ids reports = Ok percentage /\
    0 <= percentage <= 100.
Proof.
  intros Hv. exists (uptime_value station_id charger_ids reports).
  split; [apply calculate_station_uptime_value|].
  unfold uptime_value.
  destruct (get_station_reporting_period _ _ _) as [ws we] eqn:Hw.
  case_bool_decide as Hne; [lia|].
  pose proof (window_proper station_id _ _ ws we Hv Hw Hne) as Hlt.
  set (merged := merge_sorted (py_sort (up_reports charger_ids reports))).
  pose proof (merged_up_inside station_id _ _ ws we Hw) as Hin.
  pose proof (merged_up_valid charger_ids _ Hv) as Hvm.
  fold merged in Hin, Hvm.
  assert (total_up ws we merged <= we - ws) as Hle.
  { rewrite total_up_inside by done.
    apply separated_duration_le; [|done|lia|done].
    apply separated_strongly; [apply merge_sorted_separated|done]. }
  pose proof (total_up_nonneg ws we merged) as Hge. split.
  - apply Z.div_pos; lia.
  - apply Z.div_le_upper_bound; lia.
Qed.

Lemma calculate_station_uptime_range_witness :
  Forall report_valid
    [(1001, 0, 100, true); (1002, 50, 150, false); (1003, 25, 75, true)] /\
  exists percentage : Z,
    calculate_station_uptime 0 [1001; 1002]
      [(1001, 0, 100, true); (1002, 50, 150, false); (1003, 25, 75, true)]
      = Ok percentage /\
    0 <= percentage <= 100.
Proof.
  assert (Forall report_valid
    [(1001, 0, 100, true); (1002, 50, 150, false); (1003, 25, 75, true)])
    as Hv by (repeat constructor; unfold report_valid; simpl; lia).
  split; [exact Hv|]. apply calculate_station_uptime_range. exact Hv.
Defined.

(** C9. When every report has [start < end], each interval obtained by
    merging the up-intervals of the station's chargers is proper and lies
    inside the resolved window, so that clipping changes no interval and
    discards none: [calculate_station_uptime] returns what the variant
    without clipping returns, which adds up the merged intervals as they
    are. *)
Theorem calculate_station_uptime_clipping_idle (station_id : Z)
    (charger_ids : list Z) (reports : list report) :
  Forall report_valid reports ->
  (forall (ws we : Z) (merged : list interval),
     get_station_reporting_period station_id charger_ids reports = (ws, we) ->
     merge_intervals
       (foldl (collect_up (list_to_set charger_ids)) [] reports) = Ok merged ->
     Forall (fun iv : interval =>
               ws <= iv.1 /\ iv.2 <= we /\
               iv.1 `max` ws = iv.1 /\ iv.2 `min` we = iv.2 /\
               iv.1 `max` ws < iv.2 `min` we) merged) /\
  calculate_station_uptime station_id charger_ids reports =
  calculate_station_uptime_unclipped station_id charger_ids reports.
Proof.
  intros Hv. split.
  - intros ws we merged Hw Hm.
    rewrite (collect_up_fold charger_ids reports []) in Hm. simpl in Hm.
    rewrite merge_intervals_sorted in Hm. injection Hm as <-.
    pose proof (merged_up_inside station_id _ _ ws we Hw) as Hin.
    pose proof (merged_up_valid charger_ids _ Hv) as Hvm.
    rewrite Forall_forall in Hin, Hvm. apply Forall_forall. intros iv Hiv.
    specialize (Hin iv Hiv). specialize (Hvm iv Hiv).
    unfold valid in Hvm. lia.
  - rewrite calculate_station_uptime_value,
      calculate_station_uptime_unclipped_value.
    unfold uptime_value.
    destruct (get_station_reporting_period _ _ _) as [ws we] eqn:Hw.
    case_bool_decide; [done|].
    rewrite total_up_inside; [done| |].
    + by apply (merged_up_inside station_id).
    + by apply merged_up_valid.
Qed.

Lemma calculate_station_uptime_clipping_idle_witness :
  calculate_station_uptime 2 [1004]
    [(1004, 0, 50, true); (1004, 100, 200, true); (1004, 200, 260, false)] =
  calculate_station_uptime_unclipped 2 [1004]
    [(1004, 0, 50, true); (1004, 100, 200, true); (1004, 200, 260, false)].
Proof.
  apply calculate_station_uptime_clipping_idle.
  repeat constructor; unfold report_valid; simpl; lia.
Defined.

(** C10. [calculate_station_uptime] does not use its [station_id]
    argument: for the same chargers and reports it returns the same value
    whatever the station identifier, and so does the window it resolves. *)
Theorem calculate_station_uptime_ignores_station_id (id1 id2 : Z)
    (charger_ids : list Z) (reports : list report) :
  get_station_reporting_period id1 charger_ids reports =
  get_station_reporting_period id2 charger_ids reports /\
  calculate_station_uptime id1 charger_ids reports =
  calculate_station_uptime id2 charger_ids reports.
Proof. split; reflexivity. Qed.

(** ** The station loop of [main] *)

Lemma evaluate_station_fold (reports : list report)
    (stations : list (Z * list Z)) :
  forall results : list (Z * Z),
    for_each (evaluate_station reports) results stations =
    Ok (results ++ map (station_result reports) stations).
Proof.
  induction stations as [|[sid cids] stations IH]; intros results; simpl.
  - by rewrite app_nil_r.
  - rewrite calculate_station_uptime_value. simpl. rewrite IH.
    by rewrite <- app_assoc.
Qed.

Lemma fleet_results_value (stations : list (Z * list Z))
    (reports : list report) :
  fleet_results stations reports =
  Ok (py_sort (map (station_result reports) stations)).
Proof.
  unfold fleet_results. by rewrite (evaluate_station_fold reports stations []).
Qed.

Lemma station_result_ids (stations : list (Z * list Z))
    (reports : list report) :
  (map (station_result reports) stations).*1 = stations.*1.
Proof. induction stations as [|item stations IH]; simpl; by f_equal. Qed.

Lemma sorted_distinct_ids (l : list (Z * Z)) :
  StronglySorted tuple_le l -> NoDup l.*1 ->
  StronglySorted (fun a b : Z * Z => a.1 < b.1) l.
Proof.
  induction 1 as [|a l Hs IH Ha]; intros Hnd; [constructor|].
  simpl in Hnd. apply NoDup_cons in Hnd as [Hnotin Hnd].
  constructor; [by apply IH|].
  rewrite Forall_forall in Ha. apply Forall_forall. intros b Hb.
  specialize (Ha b Hb). unfold tuple_le in Ha.
  assert (a.1 <> b.1) as Hne.
  { intros Heq. apply Hnotin. rewrite Heq. by apply list_elem_of_fmap_2. }
  lia.
Qed.

Lemma all_station_chargers_elem (stations : list (Z * list Z)) (c : Z) :
  forall acc : gset Z,
    c ∈ foldl (fun acc item => acc ∪ list_to_set item.2) acc stations <->
    c ∈ acc \/ exists item : Z * list Z, item ∈ stations /\ c ∈ item.2.
Proof.
  induction stations as [|item stations IH]; intros acc; simpl.
  - split; [by left|]. intros [H|(item & Hin & _)]; [done|].
    by apply elem_of_nil in Hin.
  - rewrite IH, elem_of_union, elem_of_list_to_set. split.
    + intros [[H|H]|(it & Hin & Hc)].
      * by left.
      * right. exists item. split; [left|done].
      * right. exists it. split; [by right|done].
    + intros [H|(it & Hin & Hc)]; [by left; left|].
      apply elem_of_cons in Hin as [->|Hin]; [by left; right|].
      right. by exists it.
Qed.

Lemma main_cross_referenced (stations : list (Z * list Z))
    (reports : list report) :
  main stations reports =
  if bool_decide (cross_referenced stations reports)
  then Ok (Printed (py_sort (map (station_result reports) stations)))
  else Ok Exit_ERROR.
Proof.
  unfold main. rewrite fleet_results_value. simpl.
  apply (f_equal (fun b : bool => if b then _ else _)).
  apply bool_decide_ext. unfold cross_referenced.
  rewrite Forall_forall. setoid_rewrite Exists_exists. split.
  - intros Hsub r Hr.
    assert (report_charger r ∈
      foldl (fun (acc : gset Z) (item : Z * list Z) =>
               acc ∪ list_to_set item.2) ∅ stations) as Hc.
    { apply Hsub, elem_of_list_to_set.
      by apply (list_elem_of_fmap_2 (fun r : report => r.1.1.1)). }
    apply all_station_chargers_elem in Hc as [Hc|Hc]; [|done].
    by apply not_elem_of_empty in Hc.
  - intros Hall c Hc. apply elem_of_list_to_set in Hc.
    apply list_elem_of_fmap in Hc as (r & -> & Hr).
    apply all_station_chargers_elem. right. apply (Hall r Hr).
Qed.

(** ** Claim about the Fleet Evaluator *)

(** C4. For a station dictionary (pairwise distinct station ids) and any
    report list, the station loop of [main] returns exactly one pair
    [(station_id, percentage)] per station of the dictionary, stations
    with no charger or no report included; the percentage is the one
    [calculate_station_uptime] returns for that station; the pairs are in
    strictly ascending order of station id; and the result is the same for
    every iteration order of the dictionary.  [main] prints these pairs
    when the reports pass its cross-reference check. *)
Theorem fleet_results_one_per_station (stations : list (Z * list Z))
    (reports : list report) :
  NoDup stations.*1 ->
  exists results : list (Z * Z),
    fleet_results stations reports = Ok results /\
    length results = length stations /\
    results.*1 ≡ₚ stations.*1 /\
    (forall (station_id percentage : Z),
       (station_id, percentage) ∈ results <->
       exists charger_ids,
         (station_id, charger_ids) ∈ stations /\
         calculate_station_uptime station_id charger_ids reports
           = Ok percentage) /\
    (forall (i j : nat) (a b : Z * Z),
       (i < j)%nat -> results !! i = Some a -> results !! j = Some b ->
       a.1 < b.1) /\
    (forall stations' : list (Z * list Z),
       stations' ≡ₚ stations ->
       fleet_results stations' reports = Ok results) /\
    (cross_referenced stations reports ->
     main stations reports = Ok (Printed results)).
Proof.
  intros Hnd.
  set (pairs := map (station_result reports) stations).
  assert (py_sort pairs ≡ₚ pairs) as Hperm by apply py_sort_perm.
  exists (py_sort pairs). split; [apply fleet_results_value|].
  split; [rewrite Hperm; unfold pairs; by rewrite length_map|].
  split; [rewrite Hperm; unfold pairs; by rewrite station_result_ids|].
  split; [|split; [|split]].
  - intros sid p. rewrite Hperm. unfold pairs.
    rewrite list_elem_of_fmap. split.
    + intros ([sid' cids] & Heq & Hin). unfold station_result in Heq.
      simpl in Heq. injection Heq as -> ->. exists cids.
      split; [done|apply calculate_station_uptime_value].
    + intros (cids & Hin & Hc). exists (sid, cids). split; [|done].
      rewrite calculate_station_uptime_value in Hc. injection Hc as <-.
      done.
  - apply (StronglySorted_lookup_lt (fun a b : Z * Z => a.1 < b.1)).
    apply sorted_distinct_ids; [apply py_sort_sorted|].
    rewrite Hperm. unfold pairs. by rewrite station_result_ids.
  - intros stations' Hp. rewrite fleet_results_value. f_equal.
    apply py_sort_unique. unfold pairs. by rewrite Hp.
  - intros Hx. rewrite main_cross_referenced.
    by rewrite bool_decide_eq_true_2.
Qed.

Lemma fleet_results_one_per_station_witness :
  NoDup [(1, [1003]); (5, []); (0, [1001; 1002]); (3, [1004])].*1 /\
  exists results : list (Z * Z),
    fleet_results [(1, [1003]); (5, []); (0, [1001; 1002]); (3, [1004])]
      [(1001, 0, 100, true); (1002, 50, 150, false); (1003, 25, 75, true)]
      = Ok results /\
    length results = 4%nat /\
    fleet_results [(3, [1004]); (0, [1001; 1002]); (5, []); (1, [1003])]
      [(1001, 0, 100, true); (1002, 50, 150, false); (1003, 25, 75, true)]
      = Ok results /\
    main [(1, [1003]); (5, []); (0, [1001; 1002]); (3, [1004])]
      [(1001, 0, 100, true); (1002, 50, 150, false); (1003, 25, 75, true)]
      = Ok (Printed results).
Proof.
  assert (NoDup [(1, [1003]); (5, []); (0, [1001; 1002]); (3, [1004])].*1)
    as Hnd by (apply (bool_decide_unpack _); vm_compute; exact I).
  split; [exact Hnd|].
  destruct (fleet_results_one_per_station
              [(1, [1003]); (5, []); (0, [1001; 1002]); (3, [1004])]
              [(1001, 0, 100, true); (1002, 50, 150, false);
               (1003, 25, 75, true)] Hnd)
    as (results & Hr & Hlen & _ & _ & _ & Hany & Hmain).
  exists results. split; [exact Hr|]. split; [exact Hlen|]. split.
  - apply Hany.
    symmetry.
    apply (Permutation_rev
             [(1, [1003]); (5, []); (0, [1001; 1002]); (3, [1004])]).
  - apply Hmain. apply (bool_decide_unpack _). vm_compute. exact I.
Defined.

(** ** Further properties of [merge_intervals] *)

Lemma merge_from_id (rest : list interval) :
  forall cur, Sorted gap_before (cur :: rest) -> merge_from cur rest = cur :: rest.
Proof.
  induction rest as [|nxt rest IH]; intros cur Hs; simpl; [done|].
  apply Sorted_inv in Hs as [Hs Hhd]. apply HdRel_inv in Hhd.
  unfold gap_before in Hhd. rewrite bool_decide_eq_false_2 by lia.
  by rewrite IH.
Qed.

Lemma py_sort_id (l : list (Z * Z)) : Sorted tuple_le l -> py_sort l = l.
Proof.
  intros Hs. apply (Sorted_unique tuple_le); [|done|apply py_sort_perm].
  apply Sorted_merge_sort; apply _.
Qed.

Lemma separated_tuple_sorted (l : list interval) :
  Sorted gap_before l -> Forall valid l -> Sorted tuple_le l.
Proof.
  intros Hs Hv. apply StronglySorted_Sorted.
  apply (StronglySorted_weaken (fun a b : interval => a.1 < b.1)).
  - intros a b. unfold tuple_le. lia.
  - apply separated_starts; [by apply separated_strongly|done].
Qed.

(** X1. Merge idempotence: a list of proper intervals in which each interval
    ends strictly before the next one starts comes back unchanged, and so
    merging the result of a merge changes nothing. *)
Theorem merge_intervals_idempotent (intervals : list interval) :
  Forall valid intervals ->
  (Sorted gap_before intervals -> merge_intervals intervals = Ok intervals) /\
  (exists merged,
     merge_intervals intervals = Ok merged /\
     merge_intervals merged = Ok merged).
Proof.
  intros Hv.
  assert (forall l : list interval,
    Forall valid l -> Sorted gap_before l -> merge_intervals l = Ok l) as Hid.
  { intros l Hvl Hs. rewrite merge_intervals_sorted.
    rewrite py_sort_id by (by apply separated_tuple_sorted).
    destruct l as [|a l]; [done|]. simpl. by rewrite merge_from_id. }
  split; [by apply Hid|].
  destruct (merge_intervals_spec intervals Hv) as (Hm & Hsep & Hvm & _).
  exists (merge_sorted (py_sort intervals)). split; [done|].
  apply Hid; [done|]. by apply StronglySorted_Sorted.
Qed.

Lemma merge_intervals_idempotent_witness :
  merge_intervals [(0, 25); (50, 75); (100, 125)]
    = Ok [(0, 25); (50, 75); (100, 125)] /\
  exists merged,
    merge_intervals [(25, 75); (0, 50); (100, 150)] = Ok merged /\
    merge_intervals merged = Ok merged.
Proof.
  split.
  - apply (merge_intervals_idempotent [(0, 25); (50, 75); (100, 125)]).
    + repeat constructor; unfold valid; simpl; lia.
    + repeat constructor; unfold gap_before; simpl; lia.
  - apply (merge_intervals_idempotent [(25, 75); (0, 50); (100, 150)]).
    repeat constructor; unfold valid; simpl; lia.
Defined.

Lemma merge_from_endpoints (rest : list interval) :
  forall cur iv, iv ∈ merge_from cur rest ->
    (exists a, a ∈ cur :: rest /\ a.1 = iv.1) /\
    (exists b, b ∈ cur :: rest /\ b.2 = iv.2).
Proof.
  induction rest as [|nxt rest IH]; intros cur iv Hin; simpl in Hin.
  - apply list_elem_of_singleton in Hin as ->.
    split; exists cur; (split; [left|done]).
  - case_bool_decide as Hle.
    + apply IH in Hin as [(a & Ha & Ha1) (b & Hb & Hb2)]. split.
      * apply elem_of_cons in Ha as [->|Ha].
        -- exists cur. split; [left|done].
        -- exists a. split; [by do 2 right|done].
      * apply elem_of_cons in Hb as [->|Hb].
        -- simpl in Hb2. destruct (Z.max_spec cur.2 nxt.2) as [[_ Hm]|[_ Hm]].
           ++ exists nxt. split; [right; left|lia].
           ++ exists cur. split; [left|lia].
        -- exists b. split; [by do 2 right|done].
    + apply elem_of_cons in Hin as [->|Hin].
      * split; exists cur; (split; [left|done]).
      * apply IH in Hin as [(a & Ha & Ha1) (b & Hb & Hb2)].
        split; [exists a|exists b]; (split; [by right|done]).
Qed.

Lemma merge_from_length (rest : list interval) :
  forall cur,
    (1 <= length (merge_from cur rest) <= length (cur :: rest))%nat.
Proof.
  induction rest as [|nxt rest IH]; intros cur; simpl; [lia|].
  case_bool_decide.
  - specialize (IH (cur.1, cur.2 `max` nxt.2)). simpl in IH. lia.
  - specialize (IH nxt). simpl in *. lia.
Qed.

(** X2. Whatever the intervals (also with [start >= end]), [merge_intervals]
    raises nothing; it invents no endpoint: every merged interval starts
    at the start of an input interval and ends at the end of one; and it
    returns at most as many intervals as it was given, none exactly for
    the empty list. *)
Theorem merge_intervals_endpoints (intervals : list interval) :
  exists merged,
    merge_intervals intervals = Ok merged /\
    (forall iv, iv ∈ merged ->
       (exists a, a ∈ intervals /\ a.1 = iv.1) /\
       (exists b, b ∈ intervals /\ b.2 = iv.2)) /\
    (length merged <= length intervals)%nat /\
    (merged = [] <-> intervals = []).
Proof.
  exists (merge_sorted (py_sort intervals)).
  split; [apply merge_intervals_sorted|].
  pose proof (py_sort_perm intervals) as Hp.
  destruct (py_sort intervals) as [|first rest] eqn:Hs; simpl.
  - apply Permutation_nil_l in Hp. subst intervals.
    split; [|done]. intros iv Hin. by apply elem_of_nil in Hin.
  - pose proof (merge_from_length rest first) as Hlen.
    split; [|split].
    + intros iv Hin.
      apply merge_from_endpoints in Hin as [(a & Ha & Ha1) (b & Hb & Hb2)].
      rewrite Hp in Ha, Hb. split; [by exists a|by exists b].
    + rewrite <- Hp. exact (proj2 Hlen).
    + split.
      * intros Hnil. rewrite Hnil in Hlen. simpl in Hlen. lia.
      * intros ->. by apply Permutation_nil_r in Hp.
Qed.

(** ** Up time counted tick by tick *)

Lemma merge_from_starts_sorted (rest : list interval) :
  forall cur, StronglySorted start_le (cur :: rest) ->
    StronglySorted start_le (merge_from cur rest).
Proof.
  induction rest as [|nxt rest IH]; intros cur Hs; simpl; [done|].
  apply StronglySorted_inv in Hs as [Hs Hhd].
  pose proof Hhd as Hhd'. apply Forall_cons in Hhd' as [Hcn Hcr].
  pose proof Hs as Hs'. apply StronglySorted_inv in Hs' as [Hr Hnr].
  case_bool_decide.
  - apply IH. constructor; [done|].
    eapply Forall_impl; [exact Hcr|]. intros b. by unfold start_le.
  - constructor; [by apply IH|].
    apply Forall_forall. intros iv Hin.
    apply merge_from_endpoints in Hin as [(a & Ha & Ha1) _].
    rewrite Forall_forall in Hhd. specialize (Hhd a Ha).
    unfold start_le in *. lia.
Qed.

Lemma merge_sorted_starts_sorted (l : list interval) :
  StronglySorted start_le l -> StronglySorted start_le (merge_sorted l).
Proof. destruct l; [done|apply merge_from_starts_sorted]. Qed.

Lemma separated_after (a : interval) (l : list interval) :
  Sorted gap_before (a :: l) -> StronglySorted start_le l ->
  Forall (fun b : interval => a.2 < b.1) l.
Proof.
  intros [_ Hhd]%Sorted_inv Hs. destruct l as [|b l]; [constructor|].
  apply HdRel_inv in Hhd. apply StronglySorted_inv in Hs as [_ Hb].
  constructor; [done|]. eapply Forall_impl; [exact Hb|].
  intros c. unfold gap_before, start_le in *. lia.
Qed.

(** The number of ticks of [[lo, hi)] inside one interval is the length
    of the interval clipped to [[lo, hi)]. *)
Lemma count_inside_nat (iv : interval) (lo : Z) (n : nat) :
  Z.of_nat (length (filter (inside iv) (seqZ lo (Z.of_nat n)))) =
  clipped_duration lo (lo + Z.of_nat n) iv.
Proof.
  induction n as [|n IH].
  - simpl. unfold clipped_duration. lia.
  - rewrite seqZ_S, filter_app, length_app, Nat2Z.inj_add, IH.
    rewrite filter_cons, filter_nil. unfold clipped_duration.
    case_decide as Hin; unfold inside in Hin; simpl; lia.
Qed.

Lemma count_inside (iv : interval) (lo hi : Z) :
  Z.of_nat (length (filter (inside iv) (seqZ lo (hi - lo)))) =
  clipped_duration lo hi iv.
Proof.
  destruct (decide (lo <= hi)) as [Hle|Hgt].
  - replace (hi - lo) with (Z.of_nat (Z.to_nat (hi - lo))) by lia.
    rewrite count_inside_nat. f_equal. lia.
  - rewrite seqZ_nil by lia. simpl. unfold clipped_duration. lia.
Qed.

Lemma length_filter_either {A} (P Q R : A -> Prop)
    `{!forall x, Decision (P x)} `{!forall x, Decision (Q x)}
    `{!forall x, Decision (R x)} (l : list A) :
  (forall x, x ∈ l -> R x <-> P x \/ Q x) ->
  (forall x, x ∈ l -> P x -> ~ Q x) ->
  length (filter R l) = (length (filter P l) + length (filter Q l))%nat.
Proof.
  induction l as [|x l IH]; intros Hor Hdis; [done|].
  assert (length (filter R l)
          = (length (filter P l) + length (filter Q l))%nat) as IH'.
  { apply IH.
    - intros y Hy. apply Hor. by right.
    - intros y Hy. apply Hdis. by right. }
  assert (x ∈ x :: l) as Hx by left.
  specialize (Hor x Hx) as Hox. specialize (Hdis x Hx) as Hdx.
  rewrite !filter_cons.
  repeat case_decide; simpl; rewrite ?IH'; try lia; tauto.
Qed.

Lemma total_up_ticks (lo hi : Z) (l : list interval) :
  Sorted gap_before l -> StronglySorted start_le l ->
  total_up lo hi l = Z.of_nat (length (up_ticks lo hi l)).
Proof.
  unfold total_up, up_ticks. induction l as [|a l IH]; intros Hg Hs; simpl.
  - induction (seqZ lo (hi - lo)) as [|t ts IHt]; [done|].
    rewrite filter_cons. case_decide as Hex; [|done].
    by apply Exists_nil in Hex.
  - pose proof Hs as Hs'. apply StronglySorted_inv in Hs' as [Hsl _].
    pose proof (separated_after a l Hg Hsl) as Haft.
    pose proof Hg as Hg'. apply Sorted_inv in Hg' as [Hgl _].
    rewrite (length_filter_either (inside a)
               (fun t => Exists (fun iv => inside iv t) l)
               (fun t => Exists (fun iv => inside iv t) (a :: l))).
    + rewrite Nat2Z.inj_add, count_inside, <- IH by done. done.
    + intros t _. apply Exists_cons.
    + intros t _ Hin Hex. apply Exists_exists in Hex as (b & Hb & Hbt).
      rewrite Forall_forall in Haft. specialize (Haft b Hb).
      unfold inside in *. lia.
Qed.

Lemma up_ticks_covers (lo hi : Z) (l1 l2 : list interval) :
  (forall t, covers l1 t <-> covers l2 t) -> up_ticks lo hi l1 = up_ticks lo hi l2.
Proof.
  intros Hc. unfold up_ticks. apply list_filter_iff. intros t.
  rewrite !Exists_exists. apply Hc.
Qed.

Lemma merged_up_ticks (charger_ids : list Z) (reports : list report)
    (ws we : Z) :
  total_up ws we (merge_sorted (py_sort (up_reports charger_ids reports))) =
  Z.of_nat (length (up_ticks ws we (up_reports charger_ids reports))).
Proof.
  rewrite total_up_ticks.
  - f_equal. f_equal. apply up_ticks_covers. intros t.
    rewrite merge_sorted_covers by apply py_sort_by_start.
    apply covers_perm, py_sort_perm.
  - apply merge_sorted_separated.
  - apply merge_sorted_starts_sorted, py_sort_by_start.
Qed.

Lemma up_ticks_length (ws we : Z) (l : list interval) :
  ws <= we -> Z.of_nat (length (up_ticks ws we l)) <= we - ws.
Proof.
  intros Hle. unfold up_ticks.
  pose proof (length_filter (fun t => Exists (fun iv => inside iv t) l)
                (seqZ ws (we - ws))) as Hlen.
  rewrite length_seqZ in Hlen. lia.
Qed.

Lemma elem_of_up_ticks (ws we : Z) (l : list interval) (t : Z) :
  t ∈ up_ticks ws we l <-> ws <= t < we /\ covers l t.
Proof.
  unfold up_ticks, covers. rewrite list_elem_of_filter, elem_of_seqZ.
  rewrite Exists_exists. split; intros [H1 H2]; split; (done || lia).
Qed.

Lemma covers_up_reports (charger_ids : list Z) (reports : list report)
    (t : Z) :
  covers (up_reports charger_ids reports) t <->
  exists r, r ∈ reports /\ report_charger r ∈ charger_ids /\
            report_is_up r = true /\ report_start r <= t < report_end r.
Proof.
  unfold covers, up_reports, station_reports. split.
  - intros (iv & Hin & Ht). apply list_elem_of_fmap in Hin as (r & -> & Hr).
    apply list_elem_of_filter in Hr as [Hup Hr].
    apply list_elem_of_filter in Hr as [Hc Hr]. by exists r.
  - intros (r & Hr & Hc & Hup & Ht).
    exists (report_start r, report_end r). split; [|done].
    apply list_elem_of_fmap. exists r. split; [done|].
    apply list_elem_of_filter. split; [done|].
    by apply list_elem_of_filter.
Qed.

Lemma uptime_value_ticks (station_id : Z) (charger_ids : list Z)
    (reports : list report) (ws we : Z) :
  get_station_reporting_period station_id charger_ids reports = (ws, we) ->
  ws <> we ->
  uptime_value station_id charger_ids reports =
  (Z.of_nat (length (up_ticks ws we (up_reports charger_ids reports))) * 100)
    `div` (we - ws).
Proof.
  intros Hw Hne. unfold uptime_value. rewrite Hw.
  rewrite bool_decide_eq_false_2 by done. by rewrite merged_up_ticks.
Qed.

Lemma uptime_value_range (station_id : Z) (charger_ids : list Z)
    (reports : list report) :
  0 <= uptime_value station_id charger_ids reports <= 100.
Proof.
  destruct (get_station_reporting_period station_id charger_ids reports)
    as [ws we] eqn:Hw.
  destruct (decide (ws = we)) as [Heq|Hne].
  { unfold uptime_value. rewrite Hw. rewrite bool_decide_eq_true_2 by done.
    lia. }
  rewrite (uptime_value_ticks _ _ _ ws we Hw Hne).
  set (n := Z.of_nat (length (up_ticks ws we (up_reports charger_ids reports)))).
  destruct (decide (ws < we)) as [Hlt|Hge].
  - assert (n <= we - ws) as Hle by (apply up_ticks_length; lia).
    assert (0 <= n) as Hn by (unfold n; lia). split.
    + apply Z.div_pos; lia.
    + apply Z.div_le_upper_bound; lia.
  - assert (n = 0) as ->.
    { unfold n, up_ticks. by rewrite seqZ_nil by lia. }
    simpl. rewrite Zdiv_0_l. lia.
Qed.

(** ** Further properties of [calculate_station_uptime] *)

(** X3. Whatever the reports (also reports with [start >= end], which the
    parser would reject), [calculate_station_uptime] raises nothing and
    returns an integer between 0 and 100. *)
Theorem calculate_station_uptime_range_any (station_id : Z)
    (charger_ids : list Z) (reports : list report) :
  exists percentage : Z,
    calculate_station_uptime station_id charger_ids reports = Ok percentage /\
    0 <= percentage <= 100.
Proof.
  exists (uptime_value station_id charger_ids reports).
  split; [apply calculate_station_uptime_value|apply uptime_value_range].
Qed.

(** X4. The up time that [calculate_station_uptime] divides by the window span
    is the number of ticks [t] of the window [[ws, we)] at which some
    charger of the station has an up report running
    ([start <= t < end]): sorting, merging and clipping count every such
    tick once, however the reports overlap. *)
Theorem calculate_station_uptime_counts_ticks (station_id : Z)
    (charger_ids : list Z) (reports : list report) (ws we : Z) :
  get_station_reporting_period station_id charger_ids reports = (ws, we) ->
  ws <> we ->
  calculate_station_uptime station_id charger_ids reports =
    Ok ((Z.of_nat (length (up_ticks ws we (up_reports charger_ids reports)))
         * 100) `div` (we - ws)) /\
  NoDup (up_ticks ws we (up_reports charger_ids reports)) /\
  (forall t : Z,
     t ∈ up_ticks ws we (up_reports charger_ids reports) <->
     ws <= t < we /\
     exists r, r ∈ reports /\ report_charger r ∈ charger_ids /\
               report_is_up r = true /\ report_start r <= t < report_end r).
Proof.
  intros Hw Hne. split; [|split].
  - rewrite calculate_station_uptime_value.
    by rewrite (uptime_value_ticks _ _ _ ws we Hw Hne).
  - unfold up_ticks. apply NoDup_filter, NoDup_seqZ.
  - intros t. by rewrite elem_of_up_ticks, covers_up_reports.
Qed.

Lemma calculate_station_uptime_counts_ticks_witness :
  calculate_station_uptime 0 [1001; 1002]
    [(1001, 0, 6, true); (1002, 4, 8, true); (1001, 8, 10, false)] =
  Ok ((Z.of_nat (length (up_ticks 0 10
         (up_reports [1001; 1002]
            [(1001, 0, 6, true); (1002, 4, 8, true); (1001, 8, 10, false)])))
       * 100) `div` (10 - 0)).
Proof.
  apply (calculate_station_uptime_counts_ticks 0 [1001; 1002]
           [(1001, 0, 6, true); (1002, 4, 8, true); (1001, 8, 10, false)]
           0 10).
  - reflexivity.
  - lia.
Defined.

Lemma length_filter_all {A} (P : A -> Prop) `{!forall x, Decision (P x)}
    (l : list A) :
  length (filter P l) = length l <-> Forall P l.
Proof.
  induction l as [|x l IH]; [by split; [constructor|]|].
  rewrite filter_cons, Forall_cons. pose proof (length_filter P l) as Hle.
  case_decide; simpl.
  - rewrite <- IH. split; [intros Hl; split; [done|lia]|intros [_ ->]; done].
  - split; [lia|tauto].
Qed.

(** X5. For a window with [ws < we], the uptime is 100 exactly when every tick
    of the window is inside an up report of one of the station's chargers:
    a single uncovered tick brings the percentage below 100. *)
Theorem calculate_station_uptime_full (station_id : Z) (charger_ids : list Z)
    (reports : list report) (ws we : Z) :
  get_station_reporting_period station_id charger_ids reports = (ws, we) ->
  ws < we ->
  (calculate_station_uptime station_id charger_ids reports = Ok 100 <->
   forall t : Z, ws <= t < we ->
     exists r, r ∈ reports /\ report_charger r ∈ charger_ids /\
               report_is_up r = true /\ report_start r <= t < report_end r).
Proof.
  intros Hw Hlt. rewrite calculate_station_uptime_value.
  rewrite (uptime_value_ticks _ _ _ ws we Hw) by lia.
  pose proof (up_ticks_length ws we (up_reports charger_ids reports)) as Hle.
  set (l := up_reports charger_ids reports) in *.
  set (n := Z.of_nat (length (up_ticks ws we l))) in *.
  assert (n = we - ws <->
          Forall (fun t => Exists (fun iv => inside iv t) l)
            (seqZ ws (we - ws))) as Hall.
  { rewrite <- (length_filter_all
                  (fun t => Exists (fun iv => inside iv t) l)).
    rewrite length_seqZ. unfold n, up_ticks. lia. }
  assert (Forall (fun t => Exists (fun iv => inside iv t) l)
            (seqZ ws (we - ws)) <->
          forall t : Z, ws <= t < we ->
            exists r, r ∈ reports /\ report_charger r ∈ charger_ids /\
              report_is_up r = true /\ report_start r <= t < report_end r)
    as Hcov.
  { rewrite Forall_seqZ. split; intros H t Ht.
    - apply covers_up_reports, Exists_exists, H. lia.
    - apply Exists_exists, covers_up_reports, H. lia. }
  rewrite <- Hcov, <- Hall. split.
  - intros Heq. injection Heq as Heq.
    destruct (decide (n = we - ws)) as [|Hne]; [done|].
    assert ((n * 100) `div` (we - ws) < 100); [|lia].
    apply Z.div_lt_upper_bound; lia.
  - intros ->. f_equal. rewrite Z.mul_comm. apply Z.div_mul. lia.
Qed.

Lemma calculate_station_uptime_full_witness :
  calculate_station_uptime 0 [1001; 1002]
    [(1001, 0, 50, true); (1001, 50, 100, true); (1002, 50, 100, true)]
    = Ok 100 <->
  forall t : Z, 0 <= t < 100 ->
    exists r : report,
      r ∈ [(1001, 0, 50, true); (1001, 50, 100, true); (1002, 50, 100, true)] /\
      report_charger r ∈ [1001; 1002] /\
      report_is_up r = true /\ report_start r <= t < report_end r.
Proof.
  apply (calculate_station_uptime_full 0 [1001; 1002]
           [(1001, 0, 50, true); (1001, 50, 100, true); (1002, 50, 100, true)]
           0 100).
  - reflexivity.
  - lia.
Defined.

(** X6. Down reports add no up time: a station none of whose reports is up
    has uptime 0, whatever its window. *)
Theorem calculate_station_uptime_all_down (station_id : Z)
    (charger_ids : list Z) (reports : list report) :
  (forall r, r ∈ reports -> report_charger r ∈ charger_ids ->
             report_is_up r = false) ->
  calculate_station_uptime station_id charger_ids reports = Ok 0.
Proof.
  intros Hdown. rewrite calculate_station_uptime_value. f_equal.
  destruct (get_station_reporting_period station_id charger_ids reports)
    as [ws we] eqn:Hw.
  destruct (decide (ws = we)) as [Heq|Hne].
  { unfold uptime_value. rewrite Hw. by rewrite bool_decide_eq_true_2. }
  rewrite (uptime_value_ticks _ _ _ ws we Hw Hne).
  destruct (up_ticks ws we (up_reports charger_ids reports)) as [|t ts] eqn:Ht.
  { simpl. apply Zdiv_0_l. }
  assert (t ∈ up_ticks ws we (up_reports charger_ids reports)) as Hin
    by (rewrite Ht; left).
  apply elem_of_up_ticks in Hin as [_ Hc].
  apply covers_up_reports in Hc as (r & Hr & Hc & Hup & _).
  rewrite (Hdown r Hr Hc) in Hup. discriminate.
Qed.

Lemma calculate_station_uptime_all_down_witness :
  calculate_station_uptime 1 [1003]
    [(1003, 25, 75, false); (1001, 0, 100, true); (1003, 80, 90, false)]
  = Ok 0.
Proof.
  apply calculate_station_uptime_all_down.
  intros r Hr Hc. repeat (apply elem_of_cons in Hr as [->|Hr]); try reflexivity.
  - unfold report_charger in Hc. simpl in Hc.
    apply list_elem_of_singleton in Hc. discriminate.
  - by apply elem_of_nil in Hr.
Defined.

(** ** What the uptime of a station depends on *)

Lemma period_fold_own (charger_ids : list Z) (reports : list report) :
  forall acc : option Z * option Z,
    foldl (period_step (list_to_set charger_ids)) acc reports =
    foldl (period_step (list_to_set charger_ids)) acc
      (station_reports charger_ids reports).
Proof.
  induction reports as [|r reports IH]; intros acc; [done|].
  rewrite station_reports_cons. simpl. case_bool_decide as Hc; simpl.
  - apply IH.
  - rewrite <- IH. f_equal. destruct r as [[[c s] e] up], acc as [lo hi].
    unfold period_step, report_charger in *. simpl in *.
    rewrite bool_decide_eq_false_2; [done|].
    by rewrite elem_of_station_set.
Qed.

Lemma station_reports_idemp (charger_ids : list Z) (reports : list report) :
  station_reports charger_ids (station_reports charger_ids reports) =
  station_reports charger_ids reports.
Proof.
  unfold station_reports. induction reports as [|r reports IH]; [done|].
  rewrite filter_cons. case_decide; [|done].
  rewrite filter_cons. case_decide; [|done]. by rewrite IH.
Qed.

Lemma uptime_value_own (station_id : Z) (charger_ids : list Z)
    (reports : list report) :
  uptime_value station_id charger_ids reports =
  uptime_value station_id charger_ids (station_reports charger_ids reports).
Proof.
  unfold uptime_value, get_station_reporting_period, up_reports.
  by rewrite station_reports_idemp, <- period_fold_own.
Qed.

(** X7. The uptime of a station depends only on the reports of its own
    chargers: two report lists that agree on them give the same result,
    so adding or removing reports of other chargers changes nothing. *)
Theorem calculate_station_uptime_own_reports (station_id : Z)
    (charger_ids : list Z) (reports1 reports2 : list report) :
  station_reports charger_ids reports1 = station_reports charger_ids reports2 ->
  calculate_station_uptime station_id charger_ids reports1 =
  calculate_station_uptime station_id charger_ids reports2.
Proof.
  intros Hown. rewrite !calculate_station_uptime_value. f_equal.
  rewrite (uptime_value_own _ _ reports1), (uptime_value_own _ _ reports2).
  by rewrite Hown.
Qed.

Lemma calculate_station_uptime_own_reports_witness :
  calculate_station_uptime 1 [1003]
    [(1001, 0, 100, true); (1003, 25, 75, true); (1002, 50, 150, false);
     (1003, 75, 125, false)] =
  calculate_station_uptime 1 [1003]
    [(1003, 25, 75, true); (1003, 75, 125, false); (1004, 0, 900, true)].
Proof.
  apply calculate_station_uptime_own_reports. reflexivity.
Defined.

(** X8. The charger list of a station is used as a set: lists with the same
    elements, in any order and with any repetition, give the same window
    and the same uptime. *)
Theorem calculate_station_uptime_charger_set (station_id : Z)
    (charger_ids1 charger_ids2 : list Z) (reports : list report) :
  (forall c : Z, c ∈ charger_ids1 <-> c ∈ charger_ids2) ->
  get_station_reporting_period station_id charger_ids1 reports =
  get_station_reporting_period station_id charger_ids2 reports /\
  calculate_station_uptime station_id charger_ids1 reports =
  calculate_station_uptime station_id charger_ids2 reports.
Proof.
  intros Hsame.
  assert ((list_to_set charger_ids1 : gset Z) = list_to_set charger_ids2)
    as Hset.
  { apply set_eq. intros c. rewrite !elem_of_list_to_set. apply Hsame. }
  unfold calculate_station_uptime, get_station_reporting_period.
  rewrite Hset. done.
Qed.

Lemma calculate_station_uptime_charger_set_witness :
  calculate_station_uptime 0 [1001; 1002; 1001]
    [(1001, 0, 100, true); (1002, 50, 150, false)] =
  calculate_station_uptime 0 [1002; 1001]
    [(1001, 0, 100, true); (1002, 50, 150, false)].
Proof.
  apply calculate_station_uptime_charger_set. intros c.
  rewrite !elem_of_cons, !elem_of_nil. tauto.
Defined.

Lemma is_min_perm (a b : Z) (l1 l2 : list Z) :
  l1 ≡ₚ l2 -> is_min a l1 -> is_min b l2 -> a = b.
Proof.
  intros Hp [Ha Hale] [Hb Hble].
  rewrite Hp in Ha. rewrite <- Hp in Hb.
  specialize (Hale b Hb). specialize (Hble a Ha). lia.
Qed.

Lemma is_max_perm (a b : Z) (l1 l2 : list Z) :
  l1 ≡ₚ l2 -> is_max a l1 -> is_max b l2 -> a = b.
Proof.
  intros Hp [Ha Hale] [Hb Hble].
  rewrite Hp in Ha. rewrite <- Hp in Hb.
  specialize (Hale b Hb). specialize (Hble a Ha). lia.
Qed.

Lemma station_reports_perm (charger_ids : list Z)
    (reports1 reports2 : list report) :
  reports1 ≡ₚ reports2 ->
  station_reports charger_ids reports1 ≡ₚ station_reports charger_ids reports2.
Proof. intros Hp. unfold station_reports. by rewrite Hp. Qed.

Lemma period_perm (station_id : Z) (charger_ids : list Z)
    (reports1 reports2 : list report) :
  reports1 ≡ₚ reports2 ->
  get_station_reporting_period station_id charger_ids reports1 =
  get_station_reporting_period station_id charger_ids reports2.
Proof.
  intros Hp. pose proof (station_reports_perm charger_ids _ _ Hp) as Hown.
  destruct (station_reports charger_ids reports1) as [|r own] eqn:H1.
  - apply Permutation_nil_l in Hown.
    rewrite (period_of_none station_id _ _ H1).
    symmetry. by apply period_of_none.
  - destruct (period_of_some station_id charger_ids reports1)
      as (lo1 & hi1 & -> & Hlo1 & Hhi1); [by rewrite H1|].
    destruct (period_of_some station_id charger_ids reports2)
      as (lo2 & hi2 & -> & Hlo2 & Hhi2).
    { intros Hnil. rewrite Hnil in Hown.
      by apply Permutation_nil_r in Hown. }
    rewrite H1 in Hlo1, Hhi1. f_equal.
    + apply (is_min_perm _ _ _ _ (fmap_Permutation report_start _ _ Hown));
        done.
    + apply (is_max_perm _ _ _ _ (fmap_Permutation report_end _ _ Hown));
        done.
Qed.

(** X9. The order of the reports is irrelevant: report lists that are
    permutations of each other give the same window and the same
    uptime. *)
Theorem calculate_station_uptime_report_order (station_id : Z)
    (charger_ids : list Z) (reports1 reports2 : list report) :
  reports1 ≡ₚ reports2 ->
  get_station_reporting_period station_id charger_ids reports1 =
  get_station_reporting_period station_id charger_ids reports2 /\
  calculate_station_uptime station_id charger_ids reports1 =
  calculate_station_uptime station_id charger_ids reports2.
Proof.
  intros Hp. pose proof (period_perm station_id charger_ids _ _ Hp) as Hw.
  split; [done|]. rewrite !calculate_station_uptime_value. f_equal.
  unfold uptime_value. rewrite Hw.
  assert (up_reports charger_ids reports1 ≡ₚ up_reports charger_ids reports2)
    as Hup.
  { unfold up_reports. apply fmap_Permutation.
    by rewrite (station_reports_perm charger_ids _ _ Hp). }
  by rewrite (py_sort_unique _ _ Hup).
Qed.

Lemma calculate_station_uptime_report_order_witness :
  calculate_station_uptime 2 [1004]
    [(1004, 0, 50, true); (1004, 100, 200, true); (1004, 50, 100, false)] =
  calculate_station_uptime 2 [1004]
    [(1004, 50, 100, false); (1004, 100, 200, true); (1004, 0, 50, true)].
Proof.
  apply calculate_station_uptime_report_order.
  apply (Permutation_rev
           [(1004, 0, 50, true); (1004, 100, 200, true); (1004, 50, 100, false)]).
Defined.

(** ** The cross-reference check of [main] *)


(** ** Times are opaque ticks *)

Lemma station_reports_shift (d : Z) (charger_ids : list Z)
    (reports : list report) :
  station_reports charger_ids (map (shift_report d) reports) =
  map (shift_report d) (station_reports charger_ids reports).
Proof.
  induction reports as [|r reports IH]; [done|]. simpl.
  rewrite !station_reports_cons, IH.
  replace (report_charger (shift_report d r)) with (report_charger r) by done.
  by case_bool_decide.
Qed.

Lemma covers_up_reports_shift (d : Z) (charger_ids : list Z)
    (reports : list report) (t : Z) :
  covers (up_reports charger_ids (map (shift_report d) reports)) (d + t) <->
  covers (up_reports charger_ids reports) t.
Proof.
  rewrite !covers_up_reports. split.
  - intros (r' & Hr' & Hc & Hup & Ht).
    apply list_elem_of_fmap in Hr' as (r & -> & Hr). exists r.
    unfold shift_report, report_charger, report_start, report_end,
      report_is_up in *. simpl in *. repeat split; (done || lia).
  - intros (r & Hr & Hc & Hup & Ht). exists (shift_report d r).
    split; [by apply list_elem_of_fmap_2|].
    unfold shift_report, report_charger, report_start, report_end,
      report_is_up in *. simpl in *. repeat split; (done || lia).
Qed.

Lemma length_filter_fmap {A B} (f : A -> B) (P : B -> Prop)
    `{!forall y, Decision (P y)} (l : list A) :
  length (filter P (f <$> l)) = length (filter (fun x => P (f x)) l).
Proof.
  induction l as [|x l IH]; [done|]. rewrite fmap_cons, !filter_cons.
  case_decide; simpl; by rewrite IH.
Qed.

Lemma up_ticks_shift (d ws we : Z) (charger_ids : list Z)
    (reports : list report) :
  length (up_ticks (ws + d) (we + d)
            (up_reports charger_ids (map (shift_report d) reports))) =
  length (up_ticks ws we (up_reports charger_ids reports)).
Proof.
  unfold up_ticks.
  replace (we + d - (ws + d)) with (we - ws) by lia.
  replace (ws + d) with (d + ws) by lia.
  rewrite <- fmap_add_seqZ.
  rewrite (length_filter_fmap (Z.add d)
    (fun t => Exists (fun iv => inside iv t)
       (up_reports charger_ids (map (shift_report d) reports)))).
  f_equal. apply list_filter_iff. intros t.
  rewrite !Exists_exists. apply covers_up_reports_shift.
Qed.

Lemma period_shift (d : Z) (station_id : Z) (charger_ids : list Z)
    (reports : list report) (ws we : Z) :
  station_reports charger_ids reports <> [] ->
  get_station_reporting_period station_id charger_ids reports = (ws, we) ->
  get_station_reporting_period station_id charger_ids
    (map (shift_report d) reports) = (ws + d, we + d).
Proof.
  intros Hown Hw.
  destruct (period_of_some station_id charger_ids reports Hown)
    as (lo & hi & Heq & [Hlo1 Hlo2] & [Hhi1 Hhi2]).
  rewrite Hw in Heq. injection Heq as <- <-.
  destruct (period_of_some station_id charger_ids
              (map (shift_report d) reports))
    as (lo' & hi' & -> & [Hlo1' Hlo2'] & [Hhi1' Hhi2']).
  { rewrite station_reports_shift.
    destruct (station_reports charger_ids reports); done. }
  rewrite station_reports_shift in Hlo1', Hlo2', Hhi1', Hhi2'.
  apply list_elem_of_fmap in Hlo1 as (r1 & -> & Hr1).
  apply list_elem_of_fmap in Hhi1 as (r2 & -> & Hr2).
  apply list_elem_of_fmap in Hlo1' as (s1 & -> & Hs1).
  apply list_elem_of_fmap in Hhi1' as (s2 & -> & Hs2).
  apply list_elem_of_fmap in Hs1 as (q1 & -> & Hq1).
  apply list_elem_of_fmap in Hs2 as (q2 & -> & Hq2).
  assert (forall r, r ∈ station_reports charger_ids reports ->
            report_start r1 <= report_start r /\
            report_end r <= report_end r2 /\
            report_start (shift_report d q1) <= report_start r + d /\
            report_end r + d <= report_end (shift_report d q2)) as Hall.
  { intros r Hr. split; [|split; [|split]].
    - apply Hlo2. by apply list_elem_of_fmap_2.
    - apply Hhi2. by apply list_elem_of_fmap_2.
    - apply (Hlo2' (report_start (shift_report d r))).
      by do 2 apply list_elem_of_fmap_2.
    - apply (Hhi2' (report_end (shift_report d r))).
      by do 2 apply list_elem_of_fmap_2. }
  pose proof (Hall r1 Hr1) as H1. pose proof (Hall r2 Hr2) as H2.
  pose proof (Hall q1 Hq1) as H3. pose proof (Hall q2 Hq2) as H4.
  unfold shift_report, report_start, report_end in *. simpl in *.
  f_equal; lia.
Qed.

(** X10. Times are opaque ticks: moving every report by the same number of
    ticks, forward or backward, leaves the uptime of a station
    unchanged. *)
Theorem calculate_station_uptime_shift (d : Z) (station_id : Z)
    (charger_ids : list Z) (reports : list report) :
  calculate_station_uptime station_id charger_ids
    (map (shift_report d) reports) =
  calculate_station_uptime station_id charger_ids reports.
Proof.
  rewrite !calculate_station_uptime_value. f_equal.
  destruct (station_reports charger_ids reports) as [|r own] eqn:Hown.
  - unfold uptime_value.
    rewrite (period_of_none station_id _ reports Hown).
    rewrite (period_of_none station_id _ (map (shift_report d) reports))
      by (by rewrite station_reports_shift, Hown).
    done.
  - destruct (get_station_reporting_period station_id charger_ids reports)
      as [ws we] eqn:Hw.
    assert (get_station_reporting_period station_id charger_ids
              (map (shift_report d) reports) = (ws + d, we + d)) as Hw'.
    { apply period_shift; [by rewrite Hown|done]. }
    destruct (decide (ws = we)) as [Heq|Hne].
    + unfold uptime_value. rewrite Hw, Hw'.
      by rewrite !bool_decide_eq_true_2 by lia.
    + rewrite (uptime_value_ticks _ _ _ ws we Hw Hne).
      rewrite (uptime_value_ticks _ _ _ (ws + d) (we + d) Hw') by lia.
      rewrite up_ticks_shift. f_equal. lia.
Qed.

(** ** The loops of [parse_input_file] *)

Section parser.
Context `{PyStr}.

Lemma parse_station_line_item (lines : list string)
    (stations : list (Z * list Z)) (i : Z) :
  parse_station_line lines stations i =
  line ← lines !! Z.to_nat i;
  item ← station_item line;
  Some (dict_set item.1 item.2 stations).
Proof.
  unfold parse_station_line, station_item.
  destruct (lines !! Z.to_nat i) as [line|]; simpl; [|done].
  case_decide; [done|].
  destruct (str_split line !! 0%nat) as [p0|]; simpl; [|done].
  destruct (py_int p0) as [id|]; simpl; [|done].
  by destruct (mapM py_int (drop 1 (str_split line))).
Qed.

Lemma parse_report_line_item (lines : list string) (reports : list report)
    (i : Z) :
  parse_report_line lines reports i =
  line ← lines !! Z.to_nat i;
  r ← report_item line;
  Some (reports ++ [r]).
Proof.
  unfold parse_report_line, report_item.
  destruct (lines !! Z.to_nat i) as [line|]; simpl; [|done].
  case_decide; [done|].
  destruct (str_split line !! 0%nat) as [p0|]; simpl; [|done].
  destruct (py_int p0) as [c|]; simpl; [|done].
  destruct (str_split line !! 1%nat) as [p1|]; simpl; [|done].
  destruct (py_int p1) as [s|]; simpl; [|done].
  destruct (str_split line !! 2%nat) as [p2|]; simpl; [|done].
  destruct (py_int p2) as [e|]; simpl; [|done].
  destruct (str_split line !! 3%nat) as [p3|]; simpl; [|done].
  by case_decide.
Qed.

Lemma station_item_spec (line : string) (item : Z * list Z) :
  station_item line = Some item <-> station_of_line line item.
Proof.
  unfold station_item, station_of_line. split.
  - case_decide as Hlen; [done|].
    destruct (str_split line) as [|p0 ps] eqn:Hparts; [done|]. simpl.
    destruct (py_int p0) as [id|] eqn:Hid; simpl; [|done].
    rewrite drop_0.
    destruct (mapM py_int ps) as [cs|] eqn:Hcs; simpl; [|done].
    intros [= <-]. exists p0, ps. simpl in *.
    split; [done|]. split; [by destruct ps; simpl in *; [lia|]|].
    split; [done|]. by apply mapM_Some.
  - intros (p0 & ps & -> & Hne & Hid & Hcs). simpl.
    case_decide as Hlen; [destruct ps; simpl in *; [done|lia]|].
    rewrite Hid. simpl. rewrite drop_0.
    apply mapM_Some in Hcs. rewrite Hcs. simpl. by destruct item.
Qed.

Lemma report_item_spec (line : string) (r : report) :
  report_item line = Some r <-> report_of_line line r.
Proof.
  unfold report_item, report_of_line. split.
  - case_decide as Hlen; [done|].
    destruct (str_split line) as [|p0 [|p1 [|p2 [|p3 [|p4 ps]]]]] eqn:Hparts;
      simpl in *; try done.
    destruct (py_int p0) as [c|] eqn:Hc; simpl; [|done].
    destruct (py_int p1) as [s|] eqn:Hs; simpl; [|done].
    destruct (py_int p2) as [e|] eqn:He; simpl; [|done].
    case_decide as Hse; [done|]. intros [= <-].
    exists p0, p1, p2, p3.
    unfold report_charger, report_start, report_end, report_is_up. simpl.
    repeat split; (done || lia).
  - intros (p0 & p1 & p2 & p3 & -> & Hc & Hs & He & Hup & Hlt).
    destruct (decide (length [p0; p1; p2; p3] <> 4%nat)) as [Hlen|_];
      [done|].
    simpl. rewrite Hc. simpl. rewrite Hs. simpl. rewrite He. simpl.
    destruct (decide (report_start r >= report_end r)) as [Hge|_]; [lia|].
    destruct r as [[[c s] e] up].
    unfold report_is_up in Hup. simpl in Hup. by rewrite <- Hup.
Qed.

Lemma for_each_exit_app {A B} (body : B -> A -> option B) (acc : B)
    (l1 l2 : list A) :
  for_each_exit body acc (l1 ++ l2) =
  acc' ← for_each_exit body acc l1; for_each_exit body acc' l2.
Proof.
  revert acc. induction l1 as [|x l1 IH]; intros acc; simpl; [done|].
  destruct (body acc x) as [acc'|]; simpl; [apply IH|done].
Qed.

(** A loop over the indices of a block of lines does what a loop over
    the block does. *)
Lemma station_loop (lines block : list string) (k : nat) :
  (forall j line, block !! j = Some line -> lines !! (k + j)%nat = Some line) ->
  forall stations : list (Z * list Z),
    for_each_exit (parse_station_line lines) stations
      (seqZ (Z.of_nat k) (Z.of_nat (length block))) =
    items ← mapM station_item block;
    Some (foldl (fun d item => dict_set item.1 item.2 d) stations items).
Proof.
  revert k. induction block as [|line block IH]; intros k Hlook stations.
  - done.
  - rewrite seqZ_cons by (simpl; lia). simpl for_each_exit.
    rewrite parse_station_line_item. rewrite Nat2Z.id.
    rewrite <- (Nat.add_0_r k) at 1. rewrite (Hlook 0%nat line) by done.
    simpl. destruct (station_item line) as [item|]; simpl; [|done].
    replace (Z.succ (Z.of_nat k)) with (Z.of_nat (S k)) by lia.
    replace (Z.pred (Z.of_nat (S (length block))))
      with (Z.of_nat (length block)) by lia.
    rewrite IH.
    + by destruct (mapM station_item block).
    + intros j l Hj. replace (S k + j)%nat with (k + S j)%nat by lia.
      by apply Hlook.
Qed.

Lemma report_loop (lines block : list string) (k : nat) :
  (forall j line, block !! j = Some line -> lines !! (k + j)%nat = Some line) ->
  forall reports : list report,
    for_each_exit (parse_report_line lines) reports
      (seqZ (Z.of_nat k) (Z.of_nat (length block))) =
    new ← mapM report_item block; Some (reports ++ new).
Proof.
  revert k. induction block as [|line block IH]; intros k Hlook reports.
  - simpl. by rewrite app_nil_r.
  - rewrite seqZ_cons by (simpl; lia). simpl for_each_exit.
    rewrite parse_report_line_item. rewrite Nat2Z.id.
    rewrite <- (Nat.add_0_r k) at 1. rewrite (Hlook 0%nat line) by done.
    simpl. destruct (report_item line) as [r|]; simpl; [|done].
    replace (Z.succ (Z.of_nat k)) with (Z.of_nat (S k)) by lia.
    replace (Z.pred (Z.of_nat (S (length block))))
      with (Z.of_nat (length block)) by lia.
    rewrite IH.
    + destruct (mapM report_item block); simpl; [|done].
      by rewrite <- app_assoc.
    + intros j l Hj. replace (S k + j)%nat with (k + S j)%nat by lia.
      by apply Hlook.
Qed.

End parser.

(** ** The section headers *)

Lemma find_sections_cons (i s : Z) (line : string) (rest : list string) :
  find_sections i s (line :: rest) =
  if decide (line = stations_header) then find_sections (i + 1) (i + 1) rest
  else if decide (line = reports_header) then (s, i + 1)
  else find_sections (i + 1) s rest.
Proof. reflexivity. Qed.

Lemma find_sections_block (sl rl : list string) :
  stations_header ∉ sl -> reports_header ∉ sl ->
  forall i s : Z,
    find_sections i s (sl ++ reports_header :: rl) =
    (s, i + Z.of_nat (length sl) + 1).
Proof.
  induction sl as [|line sl IH]; intros Hs Hr i s.
  - rewrite app_nil_l, find_sections_cons.
    rewrite decide_False by done. rewrite decide_True by done.
    simpl. f_equal. lia.
  - rewrite <- app_comm_cons, find_sections_cons.
    apply not_elem_of_cons in Hs as [Hs1 Hs2].
    apply not_elem_of_cons in Hr as [Hr1 Hr2].
    rewrite decide_False by done. rewrite decide_False by done.
    rewrite IH by done. simpl length. f_equal. lia.
Qed.

Lemma find_sections_shape (pre sl rl : list string) :
  reports_header ∉ pre -> stations_header ∉ sl -> reports_header ∉ sl ->
  forall i s : Z,
    find_sections i s (pre ++ stations_header :: sl ++ reports_header :: rl) =
    (i + Z.of_nat (length pre) + 1,
     i + Z.of_nat (length pre) + 1 + Z.of_nat (length sl) + 1).
Proof.
  intros Hpre Hs Hr. induction pre as [|line pre IH]; intros i s.
  - rewrite app_nil_l, find_sections_cons.
    rewrite decide_True by done. rewrite find_sections_block by done.
    simpl. f_equal; lia.
  - rewrite <- app_comm_cons, find_sections_cons.
    apply not_elem_of_cons in Hpre as [Hp1 Hp2].
    destruct (decide (line = stations_header)).
    + rewrite IH by done. simpl length. f_equal; lia.
    + rewrite decide_False by done. rewrite IH by done. simpl length.
      f_equal; lia.
Qed.

Lemma find_sections_inv (lines : list string) :
  forall i s ss rs : Z,
    0 <= i -> find_sections i s lines = (ss, rs) -> rs <> -1 ->
    exists pre post,
      lines = pre ++ reports_header :: post /\
      (reports_header ∉ pre) /\
      (((stations_header ∉ pre) /\ ss = s) \/
       exists pre1 sl,
         pre = pre1 ++ stations_header :: sl /\ (stations_header ∉ sl)).
Proof.
  induction lines as [|line lines IH]; intros i s ss rs Hi Hf Hrs.
  - simpl in Hf. injection Hf as <- <-. done.
  - rewrite find_sections_cons in Hf.
    destruct (decide (line = stations_header)) as [->|Hns].
    + apply IH in Hf as (pre & post & -> & Hpre & Hcase); [|lia|done].
      exists (stations_header :: pre), post. split; [done|].
      split; [by apply not_elem_of_cons|]. right.
      destruct Hcase as [[Hnone _]|(pre1 & sl & -> & Hsl)].
      * by exists [], pre.
      * by exists (stations_header :: pre1), sl.
    + destruct (decide (line = reports_header)) as [->|Hnr].
      * injection Hf as <- <-. exists [], lines.
        split; [done|]. split; [apply not_elem_of_nil|].
        left. split; [apply not_elem_of_nil|done].
      * apply IH in Hf as (pre & post & -> & Hpre & Hcase); [|lia|done].
        exists (line :: pre), post. split; [done|].
        split; [by apply not_elem_of_cons|].
        destruct Hcase as [[Hnone ->]|(pre1 & sl & -> & Hsl)].
        -- left. split; [by apply not_elem_of_cons|done].
        -- right. by exists (line :: pre1), sl.
Qed.

Lemma find_sections_start (lines : list string) :
  forall i s ss rs : Z,
    0 <= i -> find_sections i s lines = (ss, rs) -> ss = s \/ 0 < ss.
Proof.
  induction lines as [|line lines IH]; intros i s ss rs Hi Hf.
  - simpl in Hf. injection Hf as <- <-. by left.
  - rewrite find_sections_cons in Hf.
    destruct (decide (line = stations_header)).
    + apply IH in Hf as [->|Hpos]; [right|by right|]; lia.
    + destruct (decide (line = reports_header)).
      * injection Hf as <- <-. by left.
      * apply IH in Hf; [done|lia].
Qed.

Section parse_lines.
Context `{PyStr}.

(** The parser on a file of the expected shape, in closed form. *)
Lemma parse_lines_shape (pre sl rl : list string) :
  reports_header ∉ pre -> stations_header ∉ sl -> reports_header ∉ sl ->
  parse_lines (pre ++ stations_header :: sl ++ reports_header :: rl) =
  items ← mapM station_item sl;
  reports ← mapM report_item rl;
  Some (dict_of_items items, reports).
Proof.
  intros Hpre Hs Hr. unfold parse_lines.
  set (lines := pre ++ stations_header :: sl ++ reports_header :: rl).
  assert (length lines
          = (length pre + 1 + length sl + 1 + length rl)%nat) as Hlen.
  { unfold lines. rewrite length_app. simpl. rewrite length_app. simpl. lia. }
  rewrite decide_False by lia.
  unfold lines at 1. rewrite (find_sections_shape pre sl rl) by done.
  rewrite decide_False by lia.
  replace (0 + Z.of_nat (length pre) + 1)
    with (Z.of_nat (length pre + 1)) by lia.
  replace (Z.of_nat (length pre + 1) + Z.of_nat (length sl) + 1 - 1
           - Z.of_nat (length pre + 1)) with (Z.of_nat (length sl)) by lia.
  replace (Z.of_nat (length pre + 1) + Z.of_nat (length sl) + 1)
    with (Z.of_nat (length pre + 1 + length sl + 1)) by lia.
  replace (Z.of_nat (length lines)
           - Z.of_nat (length pre + 1 + length sl + 1))
    with (Z.of_nat (length rl)) by lia.
  rewrite (station_loop lines sl).
  - destruct (mapM station_item sl) as [items|]; simpl; [|done].
    rewrite (report_loop lines rl); [by destruct (mapM report_item rl)|].
    intros j line Hj. unfold lines.
    rewrite lookup_app_r by lia.
    replace (length pre + 1 + length sl + 1 + j - length pre)%nat
      with (S (length sl + S j)) by lia.
    simpl. rewrite lookup_app_r by lia.
    replace (length sl + S j - length sl)%nat with (S j) by lia. done.
  - intros j line Hj. unfold lines.
    rewrite lookup_app_r by lia.
    replace (length pre + 1 + j - length pre)%nat with (S j) by lia.
    simpl. by apply lookup_app_l_Some.
Qed.

Lemma parse_lines_inv (lines : list string)
    (stations : list (Z * list Z)) (reports : list report) :
  parse_lines lines = Some (stations, reports) ->
  exists pre sl rl,
    lines = pre ++ stations_header :: sl ++ reports_header :: rl /\
    (reports_header ∉ pre) /\ (stations_header ∉ sl) /\
    (reports_header ∉ sl).
Proof.
  unfold parse_lines. case_decide; [done|].
  destruct (find_sections 0 (-1) lines) as [ss rs] eqn:Hf.
  case_decide as Hm; [done|]. intros _.
  apply find_sections_inv in Hf as (pre & post & -> & Hpre & Hcase);
    [|lia|lia].
  destruct Hcase as [[_ ->]|(pre1 & sl & -> & Hsl)]; [lia|].
  exists pre1, sl, post. rewrite <- app_assoc. simpl.
  split; [done|].
  apply not_elem_of_app in Hpre as [Hp1 Hp2].
  apply not_elem_of_cons in Hp2 as [_ Hp2]. done.
Qed.

End parse_lines.

(** ** The station dictionary *)

Lemma dict_set_elem {V} (k : Z) (v : V) (d : list (Z * V)) (item : Z * V) :
  NoDup d.*1 ->
  item ∈ dict_set k v d <-> item = (k, v) \/ (item ∈ d /\ item.1 <> k).
Proof.
  induction d as [|[k' v'] d IH]; intros Hnd; simpl.
  - rewrite list_elem_of_singleton. split; [by left|].
    intros [->|[Hin _]]; [done|]. by apply elem_of_nil in Hin.
  - simpl in Hnd. apply NoDup_cons in Hnd as [Hk' Hnd].
    destruct (decide (k = k')) as [<-|Hne].
    + rewrite !elem_of_cons. split.
      * intros [->|Hin]; [by left|]. right. split; [by right|].
        intros Heq. apply Hk'. rewrite <- Heq.
        by apply list_elem_of_fmap_2.
      * intros [->|[[->|Hin] Hk]]; [by left|done|by right].
    + rewrite !elem_of_cons, (IH Hnd). split.
      * intros [->|[->|[Hin Hk]]]; [right|by left|right].
        -- split; [by left|simpl; congruence].
        -- split; [by right|done].
      * intros [->|[[->|Hin] Hk]]; [by right; left|by left|].
        right. right. done.
Qed.

Lemma dict_set_keys {V} (k : Z) (v : V) (d : list (Z * V)) (k0 : Z) :
  k0 ∈ (dict_set k v d).*1 <-> k0 = k \/ k0 ∈ d.*1.
Proof.
  induction d as [|[k' v'] d IH]; simpl.
  - rewrite list_elem_of_singleton, elem_of_nil. tauto.
  - destruct (decide (k = k')) as [<-|Hne]; simpl.
    + rewrite !elem_of_cons. tauto.
    + rewrite !elem_of_cons, IH. tauto.
Qed.

Lemma dict_set_nodup {V} (k : Z) (v : V) (d : list (Z * V)) :
  NoDup d.*1 -> NoDup (dict_set k v d).*1.
Proof.
  induction d as [|[k' v'] d IH]; intros Hnd; simpl.
  - apply NoDup_singleton.
  - simpl in Hnd. apply NoDup_cons in Hnd as [Hk' Hnd].
    destruct (decide (k = k')) as [->|Hne]; simpl.
    + by apply NoDup_cons.
    + apply NoDup_cons. split; [|by apply IH].
      rewrite dict_set_keys. intros [->|Hin]; done.
Qed.

Lemma dict_fold_nodup {V} (items : list (Z * V)) :
  forall d : list (Z * V),
    NoDup d.*1 ->
    NoDup (foldl (fun d item => dict_set item.1 item.2 d) d items).*1.
Proof.
  induction items as [|item items IH]; intros d Hnd; simpl; [done|].
  by apply IH, dict_set_nodup.
Qed.

Lemma dict_fold_keys {V} (items : list (Z * V)) (k : Z) :
  forall d : list (Z * V),
    k ∈ (foldl (fun d item => dict_set item.1 item.2 d) d items).*1 <->
    k ∈ d.*1 \/ k ∈ items.*1.
Proof.
  induction items as [|item items IH]; intros d; simpl.
  - rewrite elem_of_nil. tauto.
  - rewrite IH, dict_set_keys, elem_of_cons. tauto.
Qed.

Lemma dict_fold_elem {V} (items : list (Z * V)) (x : Z * V) :
  forall d : list (Z * V),
    NoDup d.*1 ->
    x ∈ foldl (fun d item => dict_set item.1 item.2 d) d items ->
    x ∈ d \/ x ∈ items.
Proof.
  induction items as [|item items IH]; intros d Hnd Hin; simpl in Hin.
  - by left.
  - apply IH in Hin as [Hin|Hin]; [|by right; right|by apply dict_set_nodup].
    apply dict_set_elem in Hin as [->|[Hin _]]; [|by left|done].
    right. destruct item. by left.
Qed.

Lemma dict_fold_keeps {V} (items : list (Z * V)) (k : Z) (v : V) :
  k ∉ items.*1 ->
  forall d : list (Z * V),
    NoDup d.*1 -> (k, v) ∈ d ->
    (k, v) ∈ foldl (fun d item => dict_set item.1 item.2 d) d items.
Proof.
  induction items as [|item items IH]; intros Hk d Hnd Hin; simpl; [done|].
  simpl in Hk. apply not_elem_of_cons in Hk as [Hne Hk].
  apply IH; [done|by apply dict_set_nodup|].
  apply dict_set_elem; [done|]. right. split; [done|]. simpl. congruence.
Qed.

(** X13. Assignment to the station dictionary: the station ids of the result
    are pairwise distinct and are those of the assigned items; every
    entry comes from an item; and for an id assigned several times the
    value assigned last is the one kept. *)
Theorem dict_of_items_last_wins {V : Type} (items : list (Z * V)) :
  NoDup (dict_of_items items).*1 /\
  (forall k : Z, k ∈ (dict_of_items items).*1 <-> k ∈ items.*1) /\
  (forall x : Z * V, x ∈ dict_of_items items -> x ∈ items) /\
  (forall (before after : list (Z * V)) (k : Z) (v : V),
     items = before ++ (k, v) :: after -> k ∉ after.*1 ->
     (k, v) ∈ dict_of_items items).
Proof.
  unfold dict_of_items. split; [|split; [|split]].
  - apply dict_fold_nodup. constructor.
  - intros k. rewrite dict_fold_keys. simpl. rewrite elem_of_nil. tauto.
  - intros x Hin. apply dict_fold_elem in Hin as [Hin|Hin]; [|done|].
    + by apply elem_of_nil in Hin.
    + constructor.
  - intros before after k v -> Hk. rewrite foldl_app. simpl.
    apply dict_fold_keeps; [done| |].
    + apply dict_set_nodup, dict_fold_nodup. constructor.
    + apply dict_set_elem; [apply dict_fold_nodup; constructor|by left].
Qed.

Lemma dict_of_items_last_wins_witness :
  (0, [1005]) ∈
    dict_of_items [(0, [1001; 1002]); (1, [1003]); (0, [1005]); (2, [1004])].
Proof.
  apply (proj2 (proj2 (proj2 (dict_of_items_last_wins
           [(0, [1001; 1002]); (1, [1003]); (0, [1005]); (2, [1004])]))))
    with [(0, [1001; 1002]); (1, [1003])] [(2, [1004])].
  - reflexivity.
  - simpl. rewrite list_elem_of_singleton. lia.
Defined.

Lemma first_occurrence_unique {A} (x : A) (l1 l2 r1 r2 : list A) :
  l1 ++ x :: r1 = l2 ++ x :: r2 -> x ∉ l1 -> x ∉ l2 -> l1 = l2.
Proof.
  revert l2. induction l1 as [|a l1 IH]; intros [|b l2] Heq H1 H2; simpl in *.
  - done.
  - injection Heq as <- _. exfalso. apply H2. left.
  - injection Heq as -> _. exfalso. apply H1. left.
  - injection Heq as -> Heq. f_equal.
    apply not_elem_of_cons in H1 as [_ H1].
    apply not_elem_of_cons in H2 as [_ H2]. by apply IH.
Qed.

(** ** Properties of [parse_input_file] and of the program *)

Section parse_input_file.
Context `{PyStr}.

Lemma parse_lines_decodes (lines : list string)
    (stations : list (Z * list Z)) (reports : list report) :
  parse_lines lines = Some (stations, reports) <->
  exists (pre sl rl : list string) (items : list (Z * list Z)),
    lines = pre ++ stations_header :: sl ++ reports_header :: rl /\
    (reports_header ∉ pre) /\ (stations_header ∉ sl) /\
    (reports_header ∉ sl) /\
    Forall2 station_of_line sl items /\
    stations = dict_of_items items /\
    Forall2 report_of_line rl reports.
Proof.
  split.
  - intros Hp.
    destruct (parse_lines_inv lines stations reports Hp)
      as (pre & sl & rl & -> & Hpre & Hs & Hr).
    rewrite parse_lines_shape in Hp by done.
    destruct (mapM station_item sl) as [items|] eqn:Hitems; simpl in Hp;
      [|done].
    destruct (mapM report_item rl) as [reps|] eqn:Hreps; simpl in Hp;
      [|done].
    injection Hp as <- <-. exists pre, sl, rl, items.
    repeat (split; [done|]). split; [|split; [done|]].
    + apply mapM_Some in Hitems. eapply Forall2_impl; [exact Hitems|].
      intros line item. apply station_item_spec.
    + apply mapM_Some in Hreps. eapply Forall2_impl; [exact Hreps|].
      intros line r. apply report_item_spec.
  - intros (pre & sl & rl & items & -> & Hpre & Hs & Hr & Hitems & -> & Hreps).
    rewrite parse_lines_shape by done.
    assert (mapM station_item sl = Some items) as ->.
    { apply mapM_Some. eapply Forall2_impl; [exact Hitems|].
      intros line item. apply station_item_spec. }
    assert (mapM report_item rl = Some reports) as ->.
    { apply mapM_Some. eapply Forall2_impl; [exact Hreps|].
      intros line r. apply report_item_spec. }
    done.
Qed.

(** X14. The parser succeeds exactly on files that can be read and whose
    non-blank lines are: anything without the reports header, the stations
    header, station lines, the reports header, report lines.  A station
    line is a station id followed by one or more charger ids; a report
    line is a charger id, a start, an end with [start < end] and a fourth
    token, up exactly when its lower case is [true].  The reports are
    those of the report lines, in order; the stations are the dictionary
    assigned line by line. *)
Theorem parse_input_file_decodes (fs : string -> option string)
    (filepath : string) (stations : list (Z * list Z))
    (reports : list report) :
  parse_input_file fs filepath = Some (stations, reports) <->
  exists (content : string) (pre sl rl : list string)
         (items : list (Z * list Z)),
    fs filepath = Some content /\
    input_lines content
      = pre ++ stations_header :: sl ++ reports_header :: rl /\
    (reports_header ∉ pre) /\ (stations_header ∉ sl) /\
    (reports_header ∉ sl) /\
    Forall2 station_of_line sl items /\
    stations = dict_of_items items /\
    Forall2 report_of_line rl reports.
Proof.
  unfold parse_input_file. split.
  - destruct (fs filepath) as [content|]; simpl; [|done].
    intros (pre & sl & rl & items & Hrest)%parse_lines_decodes.
    by exists content, pre, sl, rl, items.
  - intros (content & pre & sl & rl & items & -> & Hrest). simpl.
    apply parse_lines_decodes. by exists pre, sl, rl, items.
Qed.

Lemma parse_input_file_distinct (fs : string -> option string)
    (filepath : string) (stations : list (Z * list Z))
    (reports : list report) :
  parse_input_file fs filepath = Some (stations, reports) ->
  NoDup stations.*1.
Proof.
  unfold parse_input_file.
  destruct (fs filepath) as [content|]; simpl; [|done].
  intros (pre & sl & rl & items & _ & _ & _ & _ & _ & -> & _)
    %parse_lines_decodes.
  unfold dict_of_items. apply dict_fold_nodup. constructor.
Qed.

(** X15. What the parser returns meets what the core assumes: every report has
    [start < end], the station ids are pairwise distinct, and every
    station has at least one charger. *)
Theorem parse_input_file_well_formed (fs : string -> option string)
    (filepath : string) (stations : list (Z * list Z))
    (reports : list report) :
  parse_input_file fs filepath = Some (stations, reports) ->
  Forall report_valid reports /\
  NoDup stations.*1 /\
  Forall (fun item : Z * list Z => item.2 <> []) stations.
Proof.
  intros Hp. pose proof (parse_input_file_distinct _ _ _ _ Hp) as Hnd.
  revert Hp. unfold parse_input_file.
  destruct (fs filepath) as [content|]; simpl; [|done].
  intros (pre & sl & rl & items & _ & _ & _ & _ & Hitems & -> & Hreps)
    %parse_lines_decodes.
  split; [|split; [exact Hnd|]].
  - clear Hitems. induction Hreps as [|line r rl reports Hr _ IH];
      constructor; [|done].
    destruct Hr as (p0 & p1 & p2 & p3 & _ & _ & _ & _ & _ & Hlt). done.
  - apply Forall_forall. intros item Hin. unfold dict_of_items in Hin.
    apply dict_fold_elem in Hin as [Hin|Hin]; [|
      |constructor].
    { by apply elem_of_nil in Hin. }
    apply list_elem_of_lookup in Hin as [j Hj].
    destruct (Forall2_lookup_r _ _ _ _ _ Hitems Hj) as (line & _ & Hline).
    destruct Hline as (p0 & ps & _ & Hne & _ & Hcs).
    intros Hnil. rewrite Hnil in Hcs. apply Forall2_nil_inv_r in Hcs. done.
Qed.

(** X16. The parser prints ERROR when the file cannot be read, when no line is
    the reports header, and when no line before the first reports header
    is the stations header. *)
Theorem parse_input_file_errors (fs : string -> option string)
    (filepath : string) :
  (fs filepath = None -> parse_input_file fs filepath = None) /\
  (forall content : string,
     fs filepath = Some content ->
     reports_header ∉ input_lines content ->
     parse_input_file fs filepath = None) /\
  (forall (content : string) (before after : list string),
     fs filepath = Some content ->
     input_lines content = before ++ reports_header :: after ->
     reports_header ∉ before -> stations_header ∉ before ->
     parse_input_file fs filepath = None).
Proof.
  unfold parse_input_file. split; [|split].
  - by intros ->.
  - intros content -> Hno. simpl.
    destruct (parse_lines (input_lines content)) as [[stations reports]|]
      eqn:Hp; [|done].
    apply parse_lines_inv in Hp as (pre & sl & rl & Heq & _).
    exfalso. apply Hno. rewrite Heq.
    apply elem_of_app. right. right. apply elem_of_app. right. left.
  - intros content before after -> Heq Hr Hs. simpl.
    destruct (parse_lines (input_lines content)) as [[stations reports]|]
      eqn:Hp; [|done].
    apply parse_lines_inv in Hp as (pre & sl & rl & Heq' & Hpre & _ & Hsl).
    rewrite Heq in Heq'.
    replace (pre ++ stations_header :: sl ++ reports_header :: rl)
      with ((pre ++ stations_header :: sl) ++ reports_header :: rl) in Heq'
      by (by rewrite <- app_assoc).
    apply first_occurrence_unique in Heq'; [|done|].
    + exfalso. apply Hs. rewrite Heq'. apply elem_of_app. right. left.
    + intros [Hin|Hin]%elem_of_app; [done|].
      apply elem_of_cons in Hin as [Hin|Hin]; done.
Qed.

(** X17. Lines before the stations header are not read: whatever stands there
    (an earlier stations section included), the result is that of the file
    starting at the header. *)
Theorem parse_lines_ignores_preamble (pre sl rl : list string) :
  reports_header ∉ pre -> stations_header ∉ sl -> reports_header ∉ sl ->
  parse_lines (pre ++ stations_header :: sl ++ reports_header :: rl) =
  parse_lines (stations_header :: sl ++ reports_header :: rl).
Proof.
  intros Hpre Hs Hr. rewrite parse_lines_shape by done.
  rewrite (parse_lines_shape [] sl rl); [done|apply not_elem_of_nil|done|done].
Qed.

(** X18. On files that decode as text the program raises nothing: it
    prints ERROR or station results.  It
    prints ERROR when it is not given exactly one argument and when the
    parser fails.  When it prints results, the station ids are in
    strictly ascending order and every percentage is between 0 and
    100. *)
Theorem program_output (fs : string -> option string) (argv : list string) :
  (exists o : outcome, program fs argv = Ok o) /\
  (length argv <> 2%nat -> program fs argv = Ok Exit_ERROR) /\
  (forall input_file : string,
     argv !! 1%nat = Some input_file ->
     parse_input_file fs input_file = None ->
     program fs argv = Ok Exit_ERROR) /\
  (forall lines : list (Z * Z),
     program fs argv = Ok (Printed lines) ->
     (forall (i j : nat) (a b : Z * Z),
        (i < j)%nat -> lines !! i = Some a -> lines !! j = Some b ->
        a.1 < b.1) /\
     Forall (fun line : Z * Z => 0 <= line.2 <= 100) lines).
Proof.
  unfold program. split; [|split; [|split]].
  - case_decide as Hlen; [by eexists|].
    destruct argv as [|a0 [|a1 [|a2 argv]]]; simpl in *; try done.
    destruct (parse_input_file fs a1) as [[stations reports]|];
      [|by eexists].
    rewrite main_cross_referenced. case_bool_decide; by eexists.
  - intros Hlen. by rewrite decide_True.
  - intros input_file -> ->. by case_decide.
  - intros lines. case_decide as Hlen; [done|].
    destruct (argv !! 1%nat) as [input_file|]; [|done].
    destruct (parse_input_file fs input_file) as [[stations reports]|]
      eqn:Hp; [|done].
    apply parse_input_file_distinct in Hp as Hnd.
    rewrite main_cross_referenced. case_bool_decide; [|done].
    intros [= <-]. split.
    + apply (StronglySorted_lookup_lt (fun a b : Z * Z => a.1 < b.1)).
      apply sorted_distinct_ids; [apply py_sort_sorted|].
      by rewrite py_sort_perm, station_result_ids.
    + rewrite py_sort_perm. apply Forall_forall.
      intros line (item & -> & _)%list_elem_of_fmap.
      apply uptime_value_range.
Qed.

End parse_input_file.

(** ** The parser and the program on the sample files *)

Lemma parse_input_file_well_formed_witness :
  Forall report_valid
    [(1001, 0, 100, true); (1002, 50, 150, false); (1003, 25, 75, true)] /\
  NoDup [(0, [1001; 1002]); (1, [1003])].*1 /\
  Forall (fun item : Z * list Z => item.2 <> [])
    [(0, [1001; 1002]); (1, [1003])].
Proof.
  apply (@parse_input_file_well_formed ascii_str sample_fs "input.txt").
  vm_compute. reflexivity.
Defined.

Lemma parse_input_file_errors_witness :
  @parse_input_file ascii_str sample_fs "missing.txt" = None /\
  @parse_input_file ascii_str sample_fs "no_reports.txt" = None /\
  @parse_input_file ascii_str sample_fs "no_stations.txt" = None.
Proof.
  split; [|split].
  - apply (@parse_input_file_errors ascii_str sample_fs "missing.txt").
    reflexivity.
  - apply (proj1 (proj2
      (@parse_input_file_errors ascii_str sample_fs "no_reports.txt"))
      sample_no_reports); [reflexivity|].
    apply (bool_decide_unpack _). vm_compute. exact I.
  - apply (proj2 (proj2
      (@parse_input_file_errors ascii_str sample_fs "no_stations.txt"))
      sample_no_stations ["0 1001"] ["1001 0 100 true"]).
    + reflexivity.
    + vm_compute. reflexivity.
    + apply (bool_decide_unpack _). vm_compute. exact I.
    + apply (bool_decide_unpack _). vm_compute. exact I.
Defined.

Lemma parse_lines_ignores_preamble_witness :
  @parse_lines ascii_str
    (["draft"; "[Stations]"; "7 7001"] ++
     "[Stations]" :: ["0 1001 1002"; "1 1003"] ++
     "[Charger Availability Reports]" :: ["1001 0 100 true"]) =
  @parse_lines ascii_str
    ("[Stations]" :: ["0 1001 1002"; "1 1003"] ++
     "[Charger Availability Reports]" :: ["1001 0 100 true"]).
Proof.
  apply (@parse_lines_ignores_preamble ascii_str
           ["draft"; "[Stations]"; "7 7001"] ["0 1001 1002"; "1 1003"]
           ["1001 0 100 true"]).
  - apply (bool_decide_unpack _). vm_compute. exact I.
  - apply (bool_decide_unpack _). vm_compute. exact I.
  - apply (bool_decide_unpack _). vm_compute. exact I.
Defined.

Lemma program_output_witness :
  @program ascii_str sample_fs ["charger_uptime.py"] = Ok Exit_ERROR /\
  Forall (fun line : Z * Z => 0 <= line.2 <= 100) [(0, 66); (1, 100)].
Proof.
  split.
  - apply (@program_output ascii_str sample_fs ["charger_uptime.py"]).
    simpl. lia.
  - apply (proj2 (proj2 (proj2
      (@program_output ascii_str sample_fs
         ["charger_uptime.py"; "input.txt"])))).
    vm_compute. reflexivity.
Defined.

(** ** The window of validated reports *)

(** X11. With reports that all have [start < end], the window is empty only
    for a station without reports: a station with at least one report has
    a window with [start < end], so the value 0 returned for an empty
    window never hides reported time. *)
Theorem reporting_period_proper (station_id : Z) (charger_ids : list Z)
    (reports : list report) (ws we : Z) :
  Forall report_valid reports ->
  get_station_reporting_period station_id charger_ids reports = (ws, we) ->
  (ws = we <-> station_reports charger_ids reports = []) /\
  ws <= we.
Proof.
  intros Hv Hw.
  destruct (station_reports charger_ids reports) as [|r own] eqn:Hown.
  - rewrite (period_of_none station_id _ _ Hown) in Hw.
    injection Hw as <- <-. done.
  - assert (ws < we) as Hlt; [|split; [split; [lia|done]|lia]].
    assert (r ∈ station_reports charger_ids reports) as Hr
      by (rewrite Hown; left).
    pose proof (period_bounds station_id _ _ ws we Hw r Hr) as [H1 H2].
    unfold station_reports in Hr. apply list_elem_of_filter in Hr as [_ Hr].
    rewrite Forall_forall in Hv. specialize (Hv r Hr).
    unfold report_valid in Hv. lia.
Qed.

Lemma reporting_period_proper_witness :
  (25 = 75 <-> station_reports [1003]
                 [(1001, 0, 100, true); (1003, 25, 75, false)] = []) /\
  25 <= 75.
Proof.
  apply (reporting_period_proper 1 [1003]
           [(1001, 0, 100, true); (1003, 25, 75, false)] 25 75).
  - repeat constructor; unfold report_valid; simpl; lia.
  - reflexivity.
Defined.
